(** * The pugast template runtime (core/pug_template/pugast/runtime.go)

    A shallow embedding of the runtime funcmap of the pug template engine:
    the operators [runtimeAdd], [runtimeSub], [runtimeMul], [runtimeQuo],
    [runtimeRem], [runtimeMinus], [runtimePlus], [runtimeEql], [runtimeLss]
    and [runtimeGtr], and the builtins [tryindex], [_Range], [s], [attr],
    [extend] and [__add_andattributes], together with the properties the
    specification states about them.

    Go values of type [interface{}] are values of [host]; a Go call either
    returns or panics, which is the [result] type; 64 bit floats are Rocq's
    primitive binary64 floats. *)

From Stdlib Require Import ZArith String Ascii List Floats Lia.
From stdpp Require Import gmap strings list list_numbers pretty.

Set Warnings "-register-all".

Local Open Scope string_scope.
Local Open Scope Z_scope.

(** ** Go calls: a value or a run-time panic *)

Inductive panic : Type :=
| IndexOutOfRange      (* slice index out of range *)
| DivideByZero         (* integer divide by zero *)
| TypeAssertion        (* x.(T) without ok on a value that is not a T *)
| ReflectKind          (* reflect.Value method called on a wrong Kind *)
| NilMapAssign.        (* assignment to an entry of a nil map *)

Inductive result (A : Type) : Type :=
| Ok (a : A)
| Panic (p : panic).

Arguments Ok {A} a.
Arguments Panic {A} p.

Definition bind {A B : Type} (r : result A) (k : A -> result B) : result B :=
  match r with
  | Ok a => k a
  | Panic p => Panic p
  end.

Notation "x <- r ;; k" := (bind r (fun x => k))
  (at level 100, r at next level, right associativity, only parsing).

(** ** Machine integers and floats *)

(** Go's [int] and [int64] on a 64 bit platform: two's complement wrap-around. *)
Definition wrap64 (z : Z) : Z := (z + 2 ^ 63) mod 2 ^ 64 - 2 ^ 63.

Definition MinInt64 : Z := - 2 ^ 63.

(** [float64(n)] for an integer [n]: rounding to nearest, ties to even. *)
Definition float64_of_int (n : Z) : float :=
  SF2Prim (binary_normalize prec emax n 0 false).

(** ** The value model *)

(** The [Object] implementations the runtime constructs and inspects:
    [Nil{}], [Bool], [Number] (a float64), [String] (a string), [*Array]
    with its [items] and [*Map] with its [Items], a Go map whose zero value
    is [nil].  The entries of a Go map are kept as a list without order
    meaning; the order in which [range] visits them is chosen by the Go
    run time at each loop. *)
Inductive Object : Type :=
| Nil
| Bool (b : bool)
| Number (f : float)
| String' (s : string)
| Array (items : list Object)
| Map (Items : option (list (Object * Object))).

(** The signed and unsigned integer kinds of package reflect. *)
Inductive IntKind : Type := Int | Int8 | Int16 | Int32 | Int64.
Inductive UintKind : Type := Uint | Uint8 | Uint16 | Uint32 | Uint64 | Uintptr.
Inductive FloatKind : Type := Float32 | Float64.

(** Host values: what an [interface{}] argument can hold.  [hnil] is the nil
    interface.  A float32 is stored as the float64 [reflect.Value.Float]
    returns for it. *)
Inductive host : Type :=
| hnil
| hbool (b : bool)
| hint (k : IntKind) (n : Z)
| huint (k : UintKind) (n : Z)
| hfloat (k : FloatKind) (f : float)
| hstring (s : string)
| hslice (l : list host)
| hmap (m : list (host * host))
| hobj (o : Object).

(** [reflect.ValueOf(x).Kind()], grouped the way every operator switches on
    it: the case list [Int, Int32, Int64, Int16, Int8] with [vx.Int()], the
    case list [Float32, Float64] with [vx.Float()], [String] with
    [vx.String()], [Bool] with [vx.Bool()], and all remaining kinds.  A
    [Number] has kind Float64, a [String] kind String, a [Bool] kind Bool;
    [Nil{}] is a struct, [*Array] and [*Map] are pointers. *)
Inductive kinded : Type :=
| KInt (n : Z)
| KFloat (f : float)
| KString (s : string)
| KBool (b : bool)
| KOther.

Definition kindOf (x : host) : kinded :=
  match x with
  | hint _ n => KInt n
  | hfloat _ f => KFloat f
  | hstring s => KString s
  | hbool b => KBool b
  | hobj (Number f) => KFloat f
  | hobj (String' s) => KString s
  | hobj (Bool b) => KBool b
  | hnil | huint _ _ | hslice _ | hmap _ | hobj _ => KOther
  end.

(** The text the arithmetic operators return for operands they do not
    support. *)
Definition no_value : host := hstring "<nil>".

(** ** Arithmetic operators *)

(** [runtimeSub(i ...interface{})]: [y] is the first argument, [x] the second
    one or the int 0; the result is [x - y]. *)
Definition runtimeSub (i : list host) : result host :=
  match i with
  | [] => Panic IndexOutOfRange
  | y :: rest =>
      let x := match rest with
               | x :: _ => x
               | [] => hint Int 0
               end in
      Ok match kindOf x with
         | KInt vx =>
             match kindOf y with
             | KInt vy => hint Int (wrap64 (vx - vy))
             | KFloat vy => hfloat Float64 (PrimFloat.sub (float64_of_int vx) vy)
             | _ => no_value
             end
         | KFloat vx =>
             match kindOf y with
             | KInt vy => hfloat Float64 (PrimFloat.sub vx (float64_of_int vy))
             | KFloat vy => hfloat Float64 (PrimFloat.sub vx vy)
             | _ => no_value
             end
         | _ => no_value
         end
  end.

Definition runtimeMul (x y : host) : host :=
  match kindOf x with
  | KInt vx =>
      match kindOf y with
      | KInt vy => hint Int (wrap64 (vx * vy))
      | KFloat vy => hfloat Float64 (PrimFloat.mul (float64_of_int vx) vy)
      | _ => no_value
      end
  | KFloat vx =>
      match kindOf y with
      | KInt vy => hfloat Float64 (PrimFloat.mul vx (float64_of_int vy))
      | KFloat vy => hfloat Float64 (PrimFloat.mul vx vy)
      | _ => no_value
      end
  | _ => no_value
  end.

Definition runtimeQuo (x y : host) : host :=
  match kindOf x with
  | KInt vx =>
      match kindOf y with
      | KInt vy => hfloat Float64 (PrimFloat.div (float64_of_int vx) (float64_of_int vy))
      | KFloat vy => hfloat Float64 (PrimFloat.div (float64_of_int vx) vy)
      | _ => no_value
      end
  | KFloat vx =>
      match kindOf y with
      | KInt vy => hfloat Float64 (PrimFloat.div vx (float64_of_int vy))
      | KFloat vy => hfloat Float64 (PrimFloat.div vx vy)
      | _ => no_value
      end
  | _ => no_value
  end.

(** Go's [%] truncates towards zero ([Z.rem]) and panics on a zero divisor. *)
Definition runtimeRem (x y : host) : result host :=
  match kindOf x with
  | KInt vx =>
      match kindOf y with
      | KInt vy =>
          if vy =? 0 then Panic DivideByZero
          else Ok (hint Int (wrap64 (Z.rem vx vy)))
      | _ => Ok no_value
      end
  | _ => Ok no_value
  end.

Definition runtimeMinus (x : host) : host :=
  match kindOf x with
  | KInt vx => hint Int64 (wrap64 (- vx))
  | KFloat vx => hfloat Float64 (PrimFloat.opp vx)
  | _ => no_value
  end.

Definition runtimePlus (x : host) : host :=
  match kindOf x with
  | KInt vx => hint Int vx
  | KFloat vx => hfloat Float64 vx
  | _ => no_value
  end.

(** ** Library functions of Go the runtime calls

    [fmt.Sprintf("%f", f)], [strconv.ParseFloat(s, 64)] (its float and
    whether its error is non-nil) and [strings.TrimSpace] are functions of
    the Go library; the runtime is modelled over any implementation of
    them. *)
Class GoLib : Type := {
  Sprintf_f : float -> string;
  ParseFloat : string -> float * bool;
  TrimSpace : string -> string
}.

(** [fmt.Sprintf("%d", n)]: the decimal numeral of [n]. *)
Definition Sprintf_d (n : Z) : string := pretty n.

(** ** Equality and ordering *)

Section Comparison.
Context `{GoLib}.

Definition runtimeEql (x y : host) : bool :=
  match kindOf x with
  | KInt vx =>
      match kindOf y with
      | KInt vy => vx =? vy
      | KFloat vy => PrimFloat.eqb (float64_of_int vx) vy
      | KString vy => String.eqb (Sprintf_d vx) vy
      | _ => false
      end
  | KFloat vx =>
      match kindOf y with
      | KInt vy => PrimFloat.eqb vx (float64_of_int vy)
      | KFloat vy => PrimFloat.eqb vx vy
      | KString vy => String.eqb (Sprintf_f vx) vy
      | _ => false
      end
  | KString vx =>
      match kindOf y with
      | KInt vy => String.eqb vx (Sprintf_d vy)
      | KFloat vy => String.eqb vx (Sprintf_f vy)
      | KString vy => String.eqb vx vy
      | _ => false
      end
  | KBool vx =>
      match kindOf y with
      | KInt vy => vx && negb (vy =? 0)
      | KBool vy => Bool.eqb vx vy
      | _ => false
      end
  | KOther => false
  end.

(** [<] on Go strings is the lexicographic order of their bytes. *)
Definition runtimeLss (x y : host) : bool :=
  match kindOf x with
  | KInt vx =>
      match kindOf y with
      | KInt vy => vx <? vy
      | KFloat vy => PrimFloat.ltb (float64_of_int vx) vy
      | KString vy => String.ltb (Sprintf_d vx) vy
      | _ => false
      end
  | KFloat vx =>
      match kindOf y with
      | KInt vy => PrimFloat.ltb vx (float64_of_int vy)
      | KFloat vy => PrimFloat.ltb vx vy
      | KString vy => String.ltb (Sprintf_f vx) vy
      | _ => false
      end
  | KString vx =>
      match kindOf y with
      | KInt vy => String.ltb vx (Sprintf_d vy)
      | KFloat vy => String.ltb vx (Sprintf_f vy)
      | KString vy => String.ltb vx vy
      | _ => false
      end
  | _ => false
  end.

Definition runtimeGtr (x y : host) : bool :=
  negb (runtimeLss x y) && negb (runtimeEql x y).

Definition neq (x y : host) : bool := negb (runtimeEql x y).

End Comparison.

(** ** Declarations of package pugast that runtime.go uses

    [convert], the methods [String()] and [Field(name)] of the [Object]
    implementations, and [indirect] are declared in other files of the
    package; the runtime is modelled over them. *)
Class Pugast : Type := {
  convert : host -> Object;
  String_of : Object -> string;
  Field : Object -> string -> Object;
  indirect : host -> host * bool
}.

Section Add.
Context `{GoLib} `{Pugast}.

(** [runtimeAdd(l, r)]: a type switch on [convert(l)], then on [convert(r)];
    the error of [strconv.ParseFloat] is discarded. *)
Definition runtimeAdd (l r : host) : Object :=
  let x := convert l in
  let y := convert r in
  match x with
  | String' _ => String' (String_of x +:+ String_of y)
  | Number fx =>
      match y with
      | Number fy => Number (PrimFloat.add fx fy)
      | String' _ =>
          let (f, _) := ParseFloat (String_of y) in
          Number (PrimFloat.add fx f)
      | _ => Nil
      end
  | _ => Nil
  end.

End Add.

(** ** Go slices, strings and package reflect *)

(** [l[i]] on a slice: a run-time panic outside [0 <= i < len(l)]. *)
Definition index {A : Type} (l : list A) (i : Z) : result A :=
  if (0 <=? i) && (i <? Z.of_nat (length l)) then
    match l !! Z.to_nat i with
    | Some a => Ok a
    | None => Panic IndexOutOfRange
    end
  else Panic IndexOutOfRange.

(** [reflect.Value.Int()] *)
Definition reflect_Int (v : host) : result Z :=
  match kindOf v with
  | KInt n => Ok n
  | _ => Panic ReflectKind
  end.

(** [reflect.Value.IsValid()]: false for the zero Value, which is what
    [reflect.ValueOf(nil)] returns. *)
Definition reflect_IsValid (v : host) : bool :=
  match v with
  | hnil => false
  | _ => true
  end.

(** [reflect.Value.Len()]: arrays, slices, maps and strings, a panic on
    every other kind. *)
Definition reflect_Len (v : host) : result Z :=
  match v with
  | hslice l => Ok (Z.of_nat (length l))
  | hmap m => Ok (Z.of_nat (length m))
  | hstring s | hobj (String' s) => Ok (Z.of_nat (String.length s))
  | _ => Panic ReflectKind
  end.

Definition byte_at (s : string) (i : Z) : result host :=
  if (0 <=? i) && (i <? Z.of_nat (String.length s)) then
    match String.get (Z.to_nat i) s with
    | Some c => Ok (huint Uint8 (Z.of_N (N_of_ascii c)))
    | None => Panic IndexOutOfRange
    end
  else Panic IndexOutOfRange.

(** [reflect.Value.Index(i)]: arrays, slices and strings; a panic on every
    other kind (maps included) and outside the range. *)
Definition reflect_Index (v : host) (i : Z) : result host :=
  match v with
  | hslice l => index l i
  | hstring s | hobj (String' s) => byte_at s i
  | _ => Panic ReflectKind
  end.

(** [strings.Split(s, sep)] for a separator of one byte. *)
Fixpoint Split (s : string) (sep : ascii) : list string :=
  match s with
  | EmptyString => [EmptyString]
  | String c rest =>
      if Ascii.eqb c sep then EmptyString :: Split rest sep
      else match Split rest sep with
           | w :: ws => String c w :: ws
           | [] => [String c EmptyString]
           end
  end.

(** [strings.Join(a, sep)] *)
Definition Join (a : list string) (sep : string) : string := String.concat sep a.

Definition space : ascii := " "%char.

(** The double quote byte, 0x22 *)
Definition dquote : string := String (ascii_of_nat 34) EmptyString.

(** ** The builtin function table *)

Fixpoint mapM {A B : Type} (f : A -> result B) (l : list A) : result (list B) :=
  match l with
  | [] => Ok []
  | a :: l' => b <- f a ;; bs <- mapM f l' ;; Ok (b :: bs)
  end.

Fixpoint foldM {A B : Type} (f : A -> B -> result A) (a : A) (l : list B) : result A :=
  match l with
  | [] => Ok a
  | b :: l' => a' <- f a b ;; foldM f a' l'
  end.

Module funcmap.

Section Builtins.
Context `{GoLib} `{Pugast}.

(** [tryindex(obj, key)]: an [*Array] with a key of type [int] is indexed
    directly; any other [Object] resolves a field; everything else goes
    through package reflect.  [return nil] is the nil interface. *)
Definition tryindex (obj key : host) : result host :=
  match obj, key with
  | hobj (Array items), hint Int idx =>
      o <- index items idx ;; Ok (hobj o)
  | hobj o, _ =>
      Ok (hobj (Field o (String_of (convert key))))
  | _, _ =>
      let (vo, _) := indirect obj in
      k <- reflect_Int key ;;
      if negb (reflect_IsValid vo) then Ok hnil
      else
        len <- reflect_Len vo ;;
        if len >? k then reflect_Index vo k else Ok hnil
  end.

(** [_Range(args ...int)]: with one argument [m = args[0]] and [o = 0],
    otherwise [m = args[1]] and [o = args[0]]; the ints [o <= i < m]. *)
Definition _Range (args : list Z) : result Object :=
  mo <- match args with
        | [a] => Ok (a, 0)
        | _ => m <- index args 1 ;; o <- index args 0 ;; Ok (m, o)
        end ;;
  let res := seqZ (snd mo) (fst mo - snd mo) in
  Ok (convert (hslice (hint Int <$> res))).

(** The loop of [s]: the string forms of the non-nil arguments, appended. *)
Definition s_loop (l : list host) : string :=
  foldl (fun res x =>
           match x with
           | hnil => res
           | _ => res +:+ String_of (convert x)
           end) EmptyString l.

(** [s(l ...interface{})] *)
Definition s (l : list host) : string :=
  let res := s_loop l in
  if (1 <? Z.of_nat (String.length res)) then " " +:+ TrimSpace res
  else EmptyString.

(** [attr(attr, prefix)]: both type assertions [.(string)] are unchecked;
    [strings.Split] returns at least one piece, so the assertion on
    [prefix] is always reached. *)
Definition attr (attr prefix : host) : result string :=
  match attr with
  | hnil => Ok EmptyString
  | hstring a =>
      t <- mapM (fun v =>
                   match prefix with
                   | hstring p => Ok (p +:+ "-" +:+ v)
                   | _ => Panic TypeAssertion
                   end) (Split a space) ;;
      Ok (Join t " ")
  | _ => Panic TypeAssertion
  end.

(** [known[k] = true] for each known key; a missing key reads as false. *)
Definition known_keys (k : list string) : gmap string bool :=
  foldl (fun known key => <[key := true]> known) ∅ k.

(** One [key="value"] fragment of [__add_andattributes], with its leading
    space. *)
Definition fragment (kv : Object * Object) : string :=
  " " +:+ String_of (fst kv) +:+ "=" +:+ dquote
      +:+ TrimSpace (String_of (snd kv)) +:+ dquote.

(** The body of the loop over [attrs.Items], run on the entries in the
    order [visited] in which [range] yields them. *)
Definition andattributes_loop (known : gmap string bool)
    (visited : list (Object * Object)) : string :=
  foldl (fun res kv =>
           if default false (known !! String_of (fst kv)) then res
           else res +:+ fragment kv) EmptyString visited.

(** [__add_andattributes(attrs, k...)].  [range] over a Go map visits every
    entry once, in an order the run time chooses anew for each loop: [out]
    is a possible result when it is the result for some such order. *)
Definition __add_andattributes (attrs : Object) (k : list string)
    (out : string) : Prop :=
  match attrs with
  | Map (Some Items) =>
      exists visited, visited ≡ₚ Items /\
        out = TrimSpace (andattributes_loop (known_keys k) visited)
  | _ => out = TrimSpace EmptyString
  end.

End Builtins.

(** [extend] works on Go maps [map[interface{}]interface{}], which are
    references: [None] is the nil map, [Some l] the map stored at [l] in
    the heap.  Keys are compared with [==], which is taken to be an
    equality on them: no key is a NaN. *)
(** A Go map is a reference into a heap of maps; nil is [None].  The keys
    are the values of a type on which Go's [==] is equality, so that an
    assignment to a key that is present replaces its entry: a NaN key,
    which [==] never finds again, is outside this model. *)
Section Extend.
Context `{Countable K} {V : Type}.

(** The order in which [range] yields the entries of a map. *)
Variable iter : gmap K V -> list (K * V).

Definition mapassign (m : option positive) (k : K) (v : V)
    (h : gmap positive (gmap K V)) : result (gmap positive (gmap K V)) :=
  match m with
  | None => Panic NilMapAssign
  | Some l => Ok (<[l := <[k := v]> (h !!! l)]> h)
  end.

Definition maprange (o : option positive) (h : gmap positive (gmap K V))
    : list (K * V) :=
  match o with
  | None => []
  | Some l => iter (h !!! l)
  end.

(** [extend(deep, m, on...)]: [m[k] = v] for every entry of every map of
    [on], in turn; [deep] is not used.  The result is [m] itself. *)
Definition extend (deep : bool) (m : option positive) (on : list (option positive))
    (h : gmap positive (gmap K V))
    : result (option positive * gmap positive (gmap K V)) :=
  h' <- foldM (fun h1 o =>
                 foldM (fun h2 kv => mapassign m (fst kv) (snd kv) h2)
                       h1 (maprange o h1)) h on ;;
  Ok (m, h').

End Extend.

End funcmap.

(** ** An implementation of the Go library functions

    Strings are byte strings holding UTF-8 text. *)
Module golib.

Definition byte (c : ascii) : Z := Z.of_N (N_of_ascii c).

(** [unicode.IsSpace] on the UTF-8 encodings of one, two and three bytes:
    tab to carriage return and space; U+0085 and U+00A0; U+1680,
    U+2000..U+200A, U+2028, U+2029, U+202F, U+205F and U+3000. *)
Definition space1 (c : ascii) : bool :=
  let n := byte c in ((9 <=? n) && (n <=? 13)) || (n =? 32).

Definition space2 (c1 c2 : ascii) : bool :=
  (byte c1 =? 194) && ((byte c2 =? 133) || (byte c2 =? 160)).

Definition space3 (c1 c2 c3 : ascii) : bool :=
  let a := byte c1 in
  let b := byte c2 in
  let c := byte c3 in
  ((a =? 225) && (b =? 154) && (c =? 128))
  || ((a =? 226) && (b =? 128)
      && (((128 <=? c) && (c <=? 138)) || (c =? 168) || (c =? 169) || (c =? 175)))
  || ((a =? 226) && (b =? 129) && (c =? 159))
  || ((a =? 227) && (b =? 128) && (c =? 128)).

Fixpoint trim_left (l : list ascii) : list ascii :=
  match l with
  | c1 :: r1 =>
      if space1 c1 then trim_left r1
      else match r1 with
           | c2 :: r2 =>
               if space2 c1 c2 then trim_left r2
               else match r2 with
                    | c3 :: r3 => if space3 c1 c2 c3 then trim_left r3 else l
                    | [] => l
                    end
           | [] => l
           end
  | [] => l
  end.

(** The same from the end of the text, on the reversed bytes. *)
Fixpoint trim_right_rev (l : list ascii) : list ascii :=
  match l with
  | c1 :: r1 =>
      if space1 c1 then trim_right_rev r1
      else match r1 with
           | c2 :: r2 =>
               if space2 c2 c1 then trim_right_rev r2
               else match r2 with
                    | c3 :: r3 => if space3 c3 c2 c1 then trim_right_rev r3 else l
                    | [] => l
                    end
           | [] => l
           end
  | [] => l
  end.

(** [strings.TrimSpace] *)
Definition TrimSpace (s : string) : string :=
  string_of_list_ascii
    (rev (trim_right_rev (rev (trim_left (list_ascii_of_string s))))).

(** *** strconv.ParseFloat on decimal numerals *)

Definition digit_of (c : ascii) : option Z :=
  let n := byte c in
  if (48 <=? n) && (n <=? 57) then Some (n - 48) else None.

(** The digits at the head of [s], appended to the numeral [acc]; their
    number is added to [cnt]. *)
Fixpoint read_digits (s : string) (acc cnt : Z) : Z * Z * string :=
  match s with
  | String c r =>
      match digit_of c with
      | Some d => read_digits r (10 * acc + d) (cnt + 1)
      | None => (acc, cnt, s)
      end
  | EmptyString => (acc, cnt, s)
  end.

Definition read_sign (s : string) : bool * string :=
  match s with
  | String "+" r => (false, r)
  | String "-" r => (true, r)
  | _ => (false, s)
  end.

(** Sign, digits with at most one point and at least one digit, and an
    optional exponent with at least one digit: [Some (neg, m, e10)] for the
    numeral [(-1)^neg * m * 10^e10]. *)
Definition read_decimal (s : string) : option (bool * Z * Z) :=
  let (neg, s1) := read_sign s in
  let '(m1, n1, s2) := read_digits s1 0 0 in
  let '(m, n2, s3) :=
    match s2 with
    | String "." r => read_digits r m1 0
    | _ => (m1, 0, s2)
    end in
  if n1 + n2 =? 0 then None
  else
    match s3 with
    | EmptyString => Some (neg, m, - n2)
    | String c r =>
        if (byte c =? 101) || (byte c =? 69) then
          let (eneg, s4) := read_sign r in
          let '(e, ne, s5) := read_digits s4 0 0 in
          match s5 with
          | EmptyString =>
              if ne =? 0 then None
              else Some (neg, m, (if eneg then - e else e) - n2)
          | _ => None
          end
        else None
    end.

(** [m * 10^e10] for [m >= 0], rounded to the nearest binary64, ties to
    even; infinite when it is too large. *)
Definition decimal_to_float (m e10 : Z) : float :=
  SF2Prim
    match m with
    | Zpos p =>
        if 0 <=? e10 then binary_normalize prec emax (Z.pos p * 10 ^ e10) 0 false
        else SFdiv prec emax (S754_finite false p 0)
                   (S754_finite false (Z.to_pos (10 ^ (- e10))) 0)
    | _ => S754_zero false
    end.

Definition lower (c : ascii) : ascii :=
  let n := byte c in
  if (65 <=? n) && (n <=? 90) then ascii_of_N (Z.to_N (n + 32)) else c.

Definition to_lower (s : string) : string :=
  string_of_list_ascii (List.map lower (list_ascii_of_string s)).

Definition signed (neg : bool) (f : float) : float :=
  if neg then PrimFloat.opp f else f.

(** [strconv.ParseFloat(s, 64)]: the float and whether the error is
    non-nil.  Text that is no numeral gives 0 and a syntax error; a numeral
    beyond the largest float64 gives an infinity and a range error.  The
    names Inf, Infinity and NaN are read in any case.  Hexadecimal numerals
    and underscores between digits, which Go 1.13 added, are not read. *)
Definition ParseFloat (s : string) : float * bool :=
  let (neg, body) := read_sign (to_lower s) in
  if String.eqb body "inf" || String.eqb body "infinity" then
    (signed neg infinity, false)
  else if String.eqb (to_lower s) "nan" then (nan, false)
  else
    match read_decimal s with
    | None => (zero, true)
    | Some (neg', m, e10) =>
        let f := decimal_to_float m e10 in
        (signed neg' f, is_infinity f)
    end.

(** *** Formatting floats *)

(** The decimal numeral of [n >= 0], padded with zeros on the left to [w]
    digits. *)
Definition pad_zeros (w : Z) (n : Z) : string :=
  let d := pretty n in
  String.concat EmptyString
    (replicate (Z.to_nat (w - Z.of_nat (String.length d))) "0") +:+ d.

Definition sign_text (neg : bool) : string :=
  if neg then "-" else EmptyString.

(** [num / den] rounded to the nearest integer, ties to even. *)
Definition round_half_even (num den : Z) : Z :=
  let q := num / den in
  match 2 * (num mod den) ?= den with
  | Lt => q
  | Gt => q + 1
  | Eq => if Z.even q then q else q + 1
  end.

(** [(-1)^neg * d * 10^x] in positional notation without exponent. *)
Definition positional (neg : bool) (d x : Z) : string :=
  sign_text neg +:+
  (if 0 <=? x then pretty (d * 10 ^ x)
   else pretty (d / 10 ^ (- x)) +:+ "." +:+ pad_zeros (- x) (d mod 10 ^ (- x))).

(** [fmt.Sprintf("%f", f)]: six digits after the point. *)
Definition Sprintf_f (f : float) : string :=
  match Prim2SF f with
  | S754_nan => "NaN"
  | S754_infinity neg => if neg then "-Inf" else "+Inf"
  | S754_zero neg => positional neg 0 (-6)
  | S754_finite neg m e =>
      positional neg
        (if 0 <=? e then Z.pos m * 2 ^ e * 10 ^ 6
         else round_half_even (Z.pos m * 10 ^ 6) (2 ^ (- e))) (-6)
  end.

(** The [k] with [10^(k-1) <= num/den < 10^k], for a positive float64. *)
Definition decimal_exponent (num den : Z) : Z :=
  if den <=? num then Z.of_nat (String.length (pretty (num / den)))
  else
    match List.find (fun j => den <=? num * 10 ^ j) (seqZ 1 400) with
    | Some j => 1 - j
    | None => 0
    end.

(** The numeral of [n] digits nearest to [num/den] among those that read
    back as [f], if there is one: [Some (d, x)] for [d * 10^x]. *)
Definition shortest_at (f : float) (num den k n : Z) : option (Z * Z) :=
  let x := k - n in
  let num' := if 0 <=? x then num else num * 10 ^ (- x) in
  let den' := if 0 <=? x then den * 10 ^ x else den in
  let lo := num' / den' in
  let hi := lo + 1 in
  let near := round_half_even num' den' in
  let back d := PrimFloat.eqb (decimal_to_float d x) f in
  if back near then Some (near, x)
  else if back lo then Some (lo, x)
  else if back hi then Some (hi, x)
  else None.

Fixpoint strip_zeros (fuel : nat) (d x : Z) : Z * Z :=
  match fuel with
  | O => (d, x)
  | S fuel' =>
      if (d mod 10 =? 0) && negb (d =? 0) then strip_zeros fuel' (d / 10) (x + 1)
      else (d, x)
  end.

(** [strconv.FormatFloat(f, 'f', -1, 64)]: the shortest numeral that reads
    back as [f], in positional notation. *)
Definition FormatFloat (f : float) : string :=
  match Prim2SF f with
  | S754_nan => "NaN"
  | S754_infinity neg => if neg then "-Inf" else "+Inf"
  | S754_zero neg => sign_text neg +:+ "0"
  | S754_finite neg m e =>
      let num := if 0 <=? e then Z.pos m * 2 ^ e else Z.pos m in
      let den := if 0 <=? e then 1 else 2 ^ (- e) in
      let k := decimal_exponent num den in
      let g := PrimFloat.abs f in
      match list_find (fun n => is_Some (shortest_at g num den k n)) (seqZ 1 17) with
      | Some (_, n) =>
          match shortest_at g num den k n with
          | Some (d, x) => let (d', x') := strip_zeros 400 d x in positional neg d' x'
          | None => EmptyString
          end
      | None => EmptyString
      end
  end.

End golib.

#[export] Instance go : GoLib := {
  Sprintf_f := golib.Sprintf_f;
  ParseFloat := golib.ParseFloat;
  TrimSpace := golib.TrimSpace
}.

(** ** The declarations of package pugast outside runtime.go *)
Module pugast.

(** Modelled from the spec: [convert] is missing from the sources.  It is
    total; nil, booleans, every signed and unsigned integer width, every
    float width and strings become [Nil], [Bool], [Number] and [String];
    a sequence becomes an [Array] of its converted elements, a mapping a
    [Map]; a value that already is an [Object] passes through unchanged. *)
Fixpoint convert (x : host) : Object :=
  match x with
  | hnil => Nil
  | hbool b => Bool b
  | hint _ n => Number (float64_of_int n)
  | huint _ n => Number (float64_of_int n)
  | hfloat _ f => Number f
  | hstring s => String' s
  | hslice l => Array (List.map convert l)
  | hmap m => Map (Some (List.map (fun kv => (convert (fst kv), convert (snd kv))) m))
  | hobj o => o
  end.

(** Modelled from the spec: the [String()] methods are missing from the
    sources and the spec speaks of the string form of a value only.  A
    [String] is its own string form, [Nil] has the empty one, a [Bool] is
    true or false, a [Number] its shortest numeral, an [Array] the string
    forms of its items separated by spaces; a [Map] is given the empty
    text. *)
Fixpoint String_of (o : Object) : string :=
  match o with
  | Nil => EmptyString
  | Bool b => if b then "true" else "false"
  | Number f => golib.FormatFloat f
  | String' s => s
  | Array items => Join (List.map String_of items) " "
  | Map _ => EmptyString
  end.

(** Modelled from the spec: the [Field(name)] methods are missing from the
    sources.  A [Map] resolves the name to the value of an entry whose key
    has that string form; nothing else has fields, and a field that does
    not exist is [Nil]. *)
Definition Field (o : Object) (name : string) : Object :=
  match o with
  | Map (Some Items) =>
      match List.find (fun kv => String.eqb (String_of (fst kv)) name) Items with
      | Some kv => snd kv
      | None => Nil
      end
  | _ => Nil
  end.

(** Modelled from the spec: [indirect] is missing from the sources.  It
    follows pointers and interfaces to the value behind them; the host
    values here hold none besides the [Object]s, which [tryindex] resolves
    before. *)
Definition indirect (v : host) : host * bool := (v, false).

End pugast.

#[export] Instance pug : Pugast := {
  convert := pugast.convert;
  String_of := pugast.String_of;
  Field := pugast.Field;
  indirect := pugast.indirect
}.

(** ** The rest of the function table *)

(** [int(f)] for a float64 [f] that an int can represent: the fraction is
    discarded.  [None] for a NaN, an infinity and a float outside the
    range of int, where Go leaves the result to the implementation. *)
Definition truncate (f : float) : option Z :=
  match Prim2SF f with
  | S754_zero _ => Some 0
  | S754_finite neg m e =>
      let a := if 0 <=? e then Z.pos m * 2 ^ e else Z.pos m / 2 ^ (- e) in
      let z := if neg then - a else a in
      if (- 2 ^ 63 <=? z) && (z <? 2 ^ 63) then Some z else None
  | _ => None
  end.

Section Inc.

(** What the platform gives for [int(f)] when [f] is not representable. *)
Variable unrepresentable : float -> Z.

(** [runtimeInc(x)]: an [int]. *)
Definition runtimeInc (x : host) : Z :=
  match kindOf x with
  | KInt vx => wrap64 (vx + 1)
  | KFloat vx =>
      let g := PrimFloat.add vx one in
      match truncate g with
      | Some z => z
      | None => unrepresentable g
      end
  | _ => 0
  end.

End Inc.

Section MoreBuiltins.
Context `{GoLib} `{Pugast}.

(** The entry [__]: [strings.Join(s, "::")]. *)
Definition __ (s : list string) : string := Join s "::".

(** The entry [null]. *)
Definition null : host := hnil.

(** The entry [tagopen]: the texts [<], [p] and [t]. *)
Definition tagopen (t p : string) : string := "<" +:+ p +:+ t.

(** What one argument adds to the result of [sc]: an integer with [%d], a
    float with [%f], a string as it is, nothing for any other kind. *)
Definition css_text (x : host) : string :=
  match kindOf x with
  | KInt n => Sprintf_d n
  | KFloat f => Sprintf_f f
  | KString t => t
  | _ => EmptyString
  end.

(** Whether [sc] prints an argument: the signed integer kinds, the float
    kinds and strings. *)
Definition printed (x : host) : bool :=
  match kindOf x with
  | KInt _ | KFloat _ | KString _ => true
  | _ => false
  end.

(** The entry [sc]. *)
Definition sc (l : list host) : string :=
  foldl (fun res x =>
           match kindOf x with
           | KInt n => res +:+ Sprintf_d n
           | KFloat f => res +:+ Sprintf_f f
           | KString t => res +:+ t
           | _ => res
           end) EmptyString l.

(** The entry [__op__array]. *)
Definition __op__array (a : list host) : Object := convert (hslice a).

End MoreBuiltins.

(** A text without a space byte. *)
Definition no_space (t : string) : Prop := ~ In space (list_ascii_of_string t).

(** An operand of a signed integer kind or of kind string. *)
Definition int_or_string (x : host) : bool :=
  match kindOf x with
  | KInt _ | KString _ => true
  | _ => false
  end.

(** The entries of the sources of [extend] laid over each other, a later
    source replacing the entries of an earlier one. *)
Definition overlay `{Countable K} {V : Type}
    (h : gmap positive (gmap K V)) (on : list (option positive)) : gmap K V :=
  foldl (fun u o => match o with
                    | None => ∅
                    | Some l' => h !!! l'
                    end ∪ u) ∅ on.

(** A heap with an empty map at 3 besides the maps of [heap_ab]. *)
Definition heap_abc : gmap positive (gmap string Z) :=
  {[ 1%positive := {[ "a" := 1 ]};
     2%positive := {[ "a" := 2; "b" := 3 ]};
     3%positive := ∅ ]}.

(** ** Notions the properties are stated with *)

(** The operands the arithmetic operators compute on: the signed integer
    kinds and the float kinds. *)
Inductive num : Type :=
| NInt (n : Z)
| NFloat (f : float).

Definition numOf (x : host) : option num :=
  match kindOf x with
  | KInt n => Some (NInt n)
  | KFloat f => Some (NFloat f)
  | _ => None
  end.

(** An operand coerced to floating point. *)
Definition to_float (n : num) : float :=
  match n with
  | NInt n => float64_of_int n
  | NFloat f => f
  end.

(** The difference [p - q] of two operands as the arithmetic operators
    compute it: the int in 64 bit two's complement for two integers, the
    float64 difference of the coerced operands otherwise. *)
Definition difference (p q : num) : host :=
  match p, q with
  | NInt a, NInt b => hint Int (wrap64 (a - b))
  | _, _ => hfloat Float64 (PrimFloat.sub (to_float p) (to_float q))
  end.

(** A numeric host value of any integer or float kind, unsigned ones
    included, and its value as a float64. *)
Definition spec_numeric (x : host) : option float :=
  match x with
  | hint _ n | huint _ n => Some (float64_of_int n)
  | hfloat _ f | hobj (Number f) => Some f
  | _ => None
  end.

(** An operator computes as the float operation [fop] on all numeric
    operands, each one coerced to floating point. *)
Definition spec_ieee (op : host -> host -> result host)
    (fop : float -> float -> float) : Prop :=
  forall x y fx fy,
    spec_numeric x = Some fx -> spec_numeric y = Some fy ->
    exists r, op x y = Ok r /\ spec_numeric r = Some (fop fx fy).

(** The kind pairs of the equality matrix: int, float and string with each
    other in both orders, a bool with an int, a bool with a bool. *)
Definition in_eql_matrix (x y : host) : bool :=
  match kindOf x, kindOf y with
  | (KInt _ | KFloat _ | KString _), (KInt _ | KFloat _ | KString _) => true
  | KBool _, (KInt _ | KBool _) => true
  | _, _ => false
  end.

(** The kind pairs of the ordering matrix: int, float and string with each
    other. *)
Definition in_lss_matrix (x y : host) : bool :=
  match kindOf x, kindOf y with
  | (KInt _ | KFloat _ | KString _), (KInt _ | KFloat _ | KString _) => true
  | _, _ => false
  end.

(** The texts of a list appended, with nothing between them. *)
Definition appended (l : list string) : string :=
  foldr String.append EmptyString l.

Definition non_nil (x : host) : bool :=
  match x with
  | hnil => false
  | _ => true
  end.

Section SpecNotions.
Context `{GoLib} `{Pugast}.

(** The string forms of the non-nil arguments of [s]. *)
Definition stringified (l : list host) : list string :=
  (fun x => String_of (convert x)) <$> filter (fun x => Is_true (non_nil x)) l.

(** [s] as the specification words it: the string forms joined with a
    single space, and the empty string when that text is at most one byte
    long. *)
Definition spec_s (l : list host) : string :=
  let joined := Join (stringified l) " " in
  if (1 <? Z.of_nat (String.length joined)) then joined else EmptyString.

(** The fragments [__add_andattributes] emits for the entries of [Items]
    whose key is not among the known keys [k], in the order of [Items]. *)
Definition fragments (k : list string) (Items : list (Object * Object)) : list string :=
  funcmap.fragment <$> filter (fun kv => String_of (fst kv) ∉ k) Items.

(** The float [add] sums with a [Number] as the specification words it: a
    failed parse counts as 0.0. *)
Definition spec_parse (s : string) : float :=
  let (f, failed) := ParseFloat s in
  if failed then zero else f.

End SpecNotions.

(** The contents of the destination of [extend] after the call: every
    source in turn laid over it, an entry of a source replacing the entry
    with the same key.  The sources are read in the heap [h]; a nil source
    has no entries, and a source that is the destination [l] itself holds
    what the destination holds by then. *)
Section ExtendNotions.
Context `{Countable K} {V : Type}.

Definition source_map (h : gmap positive (gmap K V)) (l : positive)
    (d : gmap K V) (o : option positive) : gmap K V :=
  match o with
  | None => ∅
  | Some l' => if decide (l' = l) then d else h !!! l'
  end.

Definition merged (h : gmap positive (gmap K V)) (l : positive)
    (on : list (option positive)) (d : gmap K V) : gmap K V :=
  foldl (fun d o => source_map h l d o ∪ d) d on.

End ExtendNotions.

(** ** Values used in the examples *)

Definition attrs_ab : Object :=
  Map (Some [(String' "a", String' "1"); (String' "b", String' "2")]).

Definition attrs_id_class : Object :=
  Map (Some [(String' "id", String' " x "); (String' "class", String' "c")]).

(** The texts a, =, double quote, 1, double quote, and the like. *)
Definition quoted (key value : string) : string :=
  key +:+ "=" +:+ dquote +:+ value +:+ dquote.


(** A heap with the map a: 1 at 1 and the map a: 2, b: 3 at 2. *)
Definition heap_ab : gmap positive (gmap string Z) :=
  {[ 1%positive := {[ "a" := 1 ]}; 2%positive := {[ "a" := 2; "b" := 3 ]} ]}.

(** * Properties *)

Section Properties.
Context `{GoLib} `{Pugast}.

(** ** tryindex *)

Lemma index_in_range {A : Type} (l : list A) (i : Z) (a : A) :
  0 <= i -> l !! Z.to_nat i = Some a -> index l i = Ok a.
Proof.
  intros Hi Ha. unfold index.
  apply lookup_lt_Some in Ha as Hlt.
  replace (0 <=? i) with true by (symmetry; apply Z.leb_le; lia).
  replace (i <? Z.of_nat (length l)) with true by (symmetry; apply Z.ltb_lt; lia).
  simpl. now rewrite Ha.
Qed.

Lemma index_out_of_range {A : Type} (l : list A) (i : Z) :
  i < 0 \/ Z.of_nat (length l) <= i -> index l i = Panic IndexOutOfRange.
Proof.
  intros Hi. unfold index.
  destruct (0 <=? i) eqn:E1; [|reflexivity].
  destruct (i <? Z.of_nat (length l)) eqn:E2; [|reflexivity].
  apply Z.leb_le in E1. apply Z.ltb_lt in E2. lia.
Qed.

(** An [*Array] indexed with an int inside its range yields the item. *)
Lemma tryindex_array_in_range (items : list Object) (idx : Z) (o : Object) :
  0 <= idx -> items !! Z.to_nat idx = Some o ->
  funcmap.tryindex (hobj (Array items)) (hint Int idx) = Ok (hobj o).
Proof.
  intros Hi Ho. unfold funcmap.tryindex.
  now rewrite (index_in_range _ _ _ Hi Ho).
Qed.

(** C1: the specification wants an out-of-range index on an Array to give
    Nil without a fault.  The code indexes [arr.items[idx]] unchecked: for
    every Array and every int key outside [0 <= idx < len(items)],
    [tryindex] panics with an index out of range. *)
Theorem tryindex_array_out_of_range (items : list Object) (idx : Z) :
  idx < 0 \/ Z.of_nat (length items) <= idx ->
  funcmap.tryindex (hobj (Array items)) (hint Int idx) = Panic IndexOutOfRange.
Proof.
  intros Hi. unfold funcmap.tryindex.
  now rewrite (index_out_of_range _ _ Hi).
Qed.

(** The reflective path of [tryindex], on a plain slice, does check the
    upper bound and returns nil there. *)
Lemma tryindex_slice_out_of_range (l : list host) (k : IntKind) (idx : Z) :
  indirect (hslice l) = (hslice l, false) ->
  Z.of_nat (length l) <= idx ->
  funcmap.tryindex (hslice l) (hint k idx) = Ok hnil.
Proof.
  intros Hind Hi. unfold funcmap.tryindex. rewrite Hind. simpl.
  replace (Z.of_nat (length l) >? idx) with false; [reflexivity|].
  symmetry. rewrite Z.gtb_ltb. apply Z.ltb_ge. lia.
Qed.

(** ** Panics *)

(** C2: the specification wants every operation to return for every input.
    The code panics on each of the three inputs the claim names: the
    remainder by an integer zero divides by zero, [_Range] without
    arguments reads [args[1]] of an empty slice, and [attr] asserts
    [attr.(string)] on a value that is no string. *)
Theorem panicking_inputs :
  (forall (k1 k2 : IntKind) (x : Z),
      runtimeRem (hint k1 x) (hint k2 0) = Panic DivideByZero)
  /\ funcmap._Range [] = Panic IndexOutOfRange
  /\ (forall (k : IntKind) (n : Z) (prefix : host),
        funcmap.attr (hint k n) prefix = Panic TypeAssertion).
Proof.
  split; [|split]; reflexivity.
Qed.

(** Further inputs on which the table panics: [sub] without arguments and
    [attr] with a prefix that is no string. *)
Lemma more_panicking_inputs :
  runtimeSub [] = Panic IndexOutOfRange
  /\ (forall (a : string) (n : Z),
        funcmap.attr (hstring a) (hint Int n) = Panic TypeAssertion).
Proof.
  split; [reflexivity|].
  intros a n. unfold funcmap.attr.
  destruct (Split a space) eqn:E.
  - destruct a; simpl in E; [discriminate|].
    destruct (Ascii.eqb a space); [discriminate|].
    destruct (Split a0 space); discriminate.
  - reflexivity.
Qed.

(** ** Arithmetic *)

Lemma wrap64_small (z : Z) : - 2 ^ 63 <= z < 2 ^ 63 -> wrap64 z = z.
Proof.
  intros Hz. unfold wrap64. rewrite Z.mod_small; lia.
Qed.

(** C9, as the code has it: [sub] with the single argument [y] takes the
    int 0 for the missing operand and returns [0 - y]: an int (in 64 bit
    two's complement) for an argument of a signed integer kind, a float64
    for one of a float kind.  An argument of any other kind, the unsigned
    integers among them, gives the no-value text. *)
Theorem sub_unary (y : host) :
  (forall n, kindOf y = KInt n ->
     runtimeSub [y] = Ok (hint Int (wrap64 (0 - n)))
     /\ (- 2 ^ 63 < n < 2 ^ 63 -> runtimeSub [y] = Ok (hint Int (- n))))
  /\ (forall f, kindOf y = KFloat f ->
        runtimeSub [y] = Ok (hfloat Float64 (PrimFloat.sub (float64_of_int 0) f)))
  /\ (numOf y = None -> runtimeSub [y] = Ok no_value).
Proof.
  split; [|split].
  - intros n Hy. unfold runtimeSub. rewrite Hy. simpl. split; [reflexivity|].
    intros Hn. rewrite wrap64_small by lia. reflexivity.
  - intros f Hy. unfold runtimeSub. rewrite Hy. reflexivity.
  - unfold runtimeSub, numOf. simpl.
    destruct (kindOf y); try discriminate; reflexivity.
Qed.

(** The operands outside the signed integer and float kinds, the unsigned
    integers among them, give the no-value text. *)
Lemma arithmetic_no_value (x y : host) :
  numOf x = None \/ numOf y = None ->
  runtimeSub [x; y] = Ok no_value
  /\ runtimeMul x y = no_value
  /\ runtimeQuo x y = no_value
  /\ runtimeRem x y = Ok no_value.
Proof.
  unfold numOf, runtimeSub, runtimeMul, runtimeQuo, runtimeRem.
  intros [Hn | Hn]; destruct (kindOf x); destruct (kindOf y);
    try discriminate; repeat split; reflexivity.
Qed.

(** C3, as the code has it: on two operands of signed integer kinds [sub]
    and [mul] return the int result in 64 bit two's complement; as soon
    as one operand is a float they return the float64 difference and
    product of the operands coerced to float64.  Which operand [sub]
    subtracts from which is not part of this statement.  [quo] is the
    float64 quotient of the coerced operands for every pair, two integers
    included.  Operands of any other kind, unsigned integers included,
    give the no-value text, and [rem] returns the no-value text unless
    both operands are of signed integer kinds. *)
Theorem arithmetic_matrix (x y : host) :
  (forall nx ny, numOf x = Some nx -> numOf y = Some ny ->
     (runtimeSub [x; y] = Ok (difference nx ny)
      \/ runtimeSub [x; y] = Ok (difference ny nx))
     /\ runtimeMul x y =
          match nx, ny with
          | NInt a, NInt b => hint Int (wrap64 (a * b))
          | _, _ => hfloat Float64 (PrimFloat.mul (to_float nx) (to_float ny))
          end
     /\ runtimeQuo x y =
          hfloat Float64 (PrimFloat.div (to_float nx) (to_float ny)))
  /\ (numOf x = None \/ numOf y = None ->
      runtimeSub [x; y] = Ok no_value
      /\ runtimeMul x y = no_value
      /\ runtimeQuo x y = no_value)
  /\ ((forall a b, ~ (kindOf x = KInt a /\ kindOf y = KInt b)) ->
      runtimeRem x y = Ok no_value).
Proof.
  split; [|split].
  - intros nx ny Hx Hy. unfold numOf in Hx, Hy.
    unfold runtimeSub, runtimeMul, runtimeQuo.
    destruct (kindOf x); try discriminate; destruct (kindOf y); try discriminate;
      injection Hx as <-; injection Hy as <-;
      (split; [right; reflexivity|split; reflexivity]).
  - intros Hnone.
    destruct (arithmetic_no_value x y Hnone) as (Hs & Hm & Hq & _).
    repeat split; assumption.
  - intros Hno. unfold runtimeRem.
    destruct (kindOf x) eqn:Ex; try reflexivity.
    destruct (kindOf y) eqn:Ey; try reflexivity.
    exfalso. apply (Hno n n0). split; reflexivity.
Qed.

(** ** Equality and ordering *)

Lemma eql_outside_matrix (x y : host) :
  in_eql_matrix x y = false -> runtimeEql x y = false.
Proof.
  unfold in_eql_matrix, runtimeEql.
  destruct (kindOf x); destruct (kindOf y); try discriminate; reflexivity.
Qed.

(** C5, as the code has it: a bool compared with a signed integer is equal
    exactly when the bool is true and the integer is not zero; an integer
    compared with a bool, the mirror order, is never equal, and neither is
    any pair of kinds outside the matrix. *)
Theorem eql_bool_int :
  (forall (b : bool) (k : IntKind) (n : Z),
      runtimeEql (hbool b) (hint k n) = true <-> b = true /\ n <> 0)
  /\ (forall (k : IntKind) (n : Z) (b : bool),
        runtimeEql (hint k n) (hbool b) = false)
  /\ (forall x y, in_eql_matrix x y = false -> runtimeEql x y = false).
Proof.
  split; [|split].
  - intros b k n. unfold runtimeEql. simpl.
    rewrite andb_true_iff, negb_true_iff, Z.eqb_neq. reflexivity.
  - reflexivity.
  - apply eql_outside_matrix.
Qed.

Lemma lss_outside_matrix (x y : host) :
  in_lss_matrix x y = false -> runtimeLss x y = false.
Proof.
  unfold in_lss_matrix, runtimeLss.
  destruct (kindOf x); destruct (kindOf y); try discriminate; reflexivity.
Qed.

(** C7, as the code has it: [gtr(x, y)] is [!lss(x, y) && !eql(x, y)] for
    every pair of host values; for a pair of kinds outside both matrices
    [lss] and [eql] are false, so that [gtr] is true. *)
Theorem gtr_derived (x y : host) :
  runtimeGtr x y = negb (runtimeLss x y) && negb (runtimeEql x y)
  /\ (in_lss_matrix x y = false -> in_eql_matrix x y = false ->
      runtimeGtr x y = true).
Proof.
  split; [reflexivity|].
  intros Hl He. unfold runtimeGtr.
  rewrite (lss_outside_matrix _ _ Hl), (eql_outside_matrix _ _ He). reflexivity.
Qed.

(** ** add *)

(** C6, as the code has it: when [x] converts to a String the result is
    the String of [x] followed by the string form of [y]; when [x] converts
    to a Number the result is the float64 sum with a Number [y], and with
    a String [y] the sum with the float [strconv.ParseFloat] returns for
    it, whose error is discarded; every other combination is Nil. *)
Theorem add_matrix (l r : host) :
  (forall t, String_of (String' t) = t) ->
  (forall sx, convert l = String' sx ->
     runtimeAdd l r = String' (sx +:+ String_of (convert r)))
  /\ (forall fx, convert l = Number fx ->
        (forall fy, convert r = Number fy ->
           runtimeAdd l r = Number (PrimFloat.add fx fy))
        /\ (forall sy, convert r = String' sy ->
              runtimeAdd l r = Number (PrimFloat.add fx (fst (ParseFloat sy))))
        /\ ((forall fy, convert r <> Number fy) ->
            (forall sy, convert r <> String' sy) ->
            runtimeAdd l r = Nil))
  /\ ((forall sx, convert l <> String' sx) ->
      (forall fx, convert l <> Number fx) ->
      runtimeAdd l r = Nil).
Proof.
  intros Hstr. unfold runtimeAdd. split; [|split].
  - intros sx Hl. rewrite Hl, Hstr. reflexivity.
  - intros fx Hl. rewrite Hl. split; [|split].
    + intros fy Hr. rewrite Hr. reflexivity.
    + intros sy Hr. rewrite Hr, Hstr. destruct (ParseFloat sy). reflexivity.
    + intros Hn Hs. destruct (convert r); try reflexivity.
      * now destruct (Hn f).
      * now destruct (Hs s).
  - intros Hs Hn. destruct (convert l); try reflexivity.
    + now destruct (Hn f).
    + now destruct (Hs s).
Qed.

(** ** s *)

Lemma append_cons (ch : ascii) (a b : string) :
  String ch a +:+ b = String ch (a +:+ b).
Proof. reflexivity. Qed.

Lemma append_assoc (a b c : string) : (a +:+ b) +:+ c = a +:+ (b +:+ c).
Proof.
  induction a as [|ch a IH]; [reflexivity|].
  rewrite !append_cons. f_equal. exact IH.
Qed.

Lemma append_empty_r (a : string) : a +:+ EmptyString = a.
Proof.
  induction a as [|ch a IH]; [reflexivity|].
  rewrite append_cons. f_equal. exact IH.
Qed.

Lemma s_loop_from (l : list host) (acc : string) :
  foldl (fun res x =>
           match x with
           | hnil => res
           | _ => res +:+ String_of (convert x)
           end) acc l
  = acc +:+ appended (stringified l).
Proof.
  revert acc. induction l as [|x l IH]; intros acc.
  - simpl. now rewrite append_empty_r.
  - simpl foldl. rewrite IH. unfold stringified. rewrite filter_cons.
    destruct x; simpl; rewrite ?append_assoc; reflexivity.
Qed.

Lemma s_loop_appended (l : list host) :
  funcmap.s_loop l = appended (stringified l).
Proof.
  unfold funcmap.s_loop. now rewrite s_loop_from.
Qed.

(** C8, as the code has it: [s] appends the string forms of its non-nil
    arguments with nothing between them; when that text is longer than
    one byte the result is one space followed by the text trimmed of
    white space at both ends, and the empty string otherwise. *)
Theorem s_appends (l : list host) :
  funcmap.s l =
    let res := appended (stringified l) in
    if (1 <? Z.of_nat (String.length res)) then " " +:+ TrimSpace res
    else EmptyString.
Proof.
  unfold funcmap.s. now rewrite s_loop_appended.
Qed.

(** ** __add_andattributes *)

Lemma known_keys_from (k : list string) (m : gmap string bool) (key : string) :
  foldl (fun known key0 => <[key0 := true]> known) m k !! key
  = if decide (key ∈ k) then Some true else m !! key.
Proof.
  revert m. induction k as [|a k IH]; intros m; simpl.
  - destruct (decide (key ∈ [])) as [Hin|]; [|reflexivity].
    now apply elem_of_nil in Hin.
  - rewrite IH. destruct (decide (key ∈ k)) as [Hin|Hnin].
    + rewrite decide_True by (now apply elem_of_cons; right). reflexivity.
    + destruct (decide (key = a)) as [->|Hne].
      * rewrite decide_True by (now apply elem_of_cons; left).
        apply lookup_insert_eq.
      * rewrite decide_False by (rewrite elem_of_cons; tauto).
        now apply lookup_insert_ne.
Qed.

Lemma known_keys_lookup (k : list string) (key : string) :
  default false (funcmap.known_keys k !! key) = bool_decide (key ∈ k).
Proof.
  unfold funcmap.known_keys. rewrite known_keys_from.
  destruct (decide (key ∈ k)) as [Hin|Hnin].
  - now rewrite bool_decide_eq_true_2.
  - now rewrite bool_decide_eq_false_2.
Qed.

Lemma andattributes_loop_from (k : list string)
    (visited : list (Object * Object)) (acc : string) :
  foldl (fun res kv =>
           if default false (funcmap.known_keys k !! String_of (fst kv)) then res
           else res +:+ funcmap.fragment kv) acc visited
  = acc +:+ appended (fragments k visited).
Proof.
  revert acc. induction visited as [|kv visited IH]; intros acc.
  - simpl. now rewrite append_empty_r.
  - simpl foldl. rewrite IH, known_keys_lookup. unfold fragments.
    rewrite filter_cons.
    destruct (decide (String_of (fst kv) ∈ k)) as [Hin|Hnin].
    + rewrite bool_decide_eq_true_2 by assumption.
      rewrite decide_False by tauto. reflexivity.
    + rewrite bool_decide_eq_false_2 by assumption.
      rewrite decide_True by assumption. simpl. now rewrite append_assoc.
Qed.

Lemma andattributes_loop_fragments (k : list string)
    (visited : list (Object * Object)) :
  funcmap.andattributes_loop (funcmap.known_keys k) visited
  = appended (fragments k visited).
Proof.
  unfold funcmap.andattributes_loop. now rewrite andattributes_loop_from.
Qed.

Lemma fragments_perm (k : list string) (l1 l2 : list (Object * Object)) :
  l1 ≡ₚ l2 -> fragments k l1 ≡ₚ fragments k l2.
Proof.
  intros Hp. unfold fragments. now rewrite Hp.
Qed.

Lemma perm_short_eq {A : Type} (l1 l2 : list A) :
  l1 ≡ₚ l2 -> (length l1 <= 1)%nat -> l1 = l2.
Proof.
  intros Hp Hlen. destruct l1 as [|a [|b l1]].
  - now apply Permutation_nil_l.
  - now apply Permutation_singleton_l.
  - simpl in Hlen. lia.
Qed.

(** C4, as the code has it: the output is the trimmed text of the
    fragments of exactly the entries whose key is not a known key, each
    once, in the order in which [range] visits the Go map.  That order is
    not determined by the arguments: two calls with the same arguments
    emit the same fragments, possibly in different orders, and the same
    output when at most one key is not known. *)
Theorem add_andattributes_fragments (attrs : Object) (k : list string)
    (out1 out2 : string) :
  funcmap.__add_andattributes attrs k out1 ->
  funcmap.__add_andattributes attrs k out2 ->
  exists frags1 frags2,
    out1 = TrimSpace (appended frags1)
    /\ out2 = TrimSpace (appended frags2)
    /\ frags1 ≡ₚ frags2
    /\ (forall Items, attrs = Map (Some Items) -> frags1 ≡ₚ fragments k Items)
    /\ ((length frags1 <= 1)%nat -> out1 = out2).
Proof.
  unfold funcmap.__add_andattributes.
  destruct attrs as [| | | | |[Items|]];
    try (intros -> ->; exists [], []; repeat split;
         [reflexivity | discriminate]).
  intros (v1 & Hp1 & ->) (v2 & Hp2 & ->).
  exists (fragments k v1), (fragments k v2).
  rewrite !andattributes_loop_fragments.
  assert (Hp : fragments k v1 ≡ₚ fragments k v2).
  { apply fragments_perm. now rewrite Hp1, Hp2. }
  repeat split; try assumption.
  - intros Items' [= <-]. now apply fragments_perm.
  - intros Hlen. now rewrite (perm_short_eq _ _ Hp Hlen).
Qed.

(** With a map that is nil, or an argument that is no Map, nothing is
    emitted. *)
Lemma add_andattributes_no_map (attrs : Object) (k : list string) (out : string) :
  (forall Items, attrs <> Map (Some Items)) ->
  funcmap.__add_andattributes attrs k out <-> out = TrimSpace EmptyString.
Proof.
  intros Hno. unfold funcmap.__add_andattributes.
  destruct attrs as [| | | | |[Items|]]; try reflexivity.
  now destruct (Hno Items).
Qed.

End Properties.

(** ** extend *)

Section ExtendProperties.
Context `{Countable K} {V : Type}.
Variable iter : gmap K V -> list (K * V).

(** [range] yields every entry of the map once. *)
Hypothesis iter_perm : forall o : gmap K V, iter o ≡ₚ map_to_list o.

Lemma foldM_cons {A B : Type} (f : A -> B -> result A) (a : A) (b : B)
    (l : list B) :
  foldM f a (b :: l) = bind (f a b) (fun a' => foldM f a' l).
Proof. reflexivity. Qed.

Lemma assign_entries (l : positive) (entries : list (K * V))
    (h : gmap positive (gmap K V)) (d : gmap K V) :
  h !! l = Some d ->
  foldM (fun h2 kv => funcmap.mapassign (Some l) (fst kv) (snd kv) h2) h entries
  = Ok (<[l := foldl (fun d kv => <[fst kv := snd kv]> d) d entries]> h).
Proof.
  revert h d. induction entries as [|[k v] entries IH]; intros h d Hl.
  - simpl. now rewrite insert_id.
  - simpl. rewrite (lookup_total_correct _ _ _ Hl).
    rewrite (IH _ (<[k:=v]> d)) by apply lookup_insert_eq.
    now rewrite insert_insert_eq.
Qed.

Lemma assign_union (entries : list (K * V)) (d : gmap K V) :
  NoDup (entries.*1) ->
  foldl (fun d kv => <[fst kv := snd kv]> d) d entries
  = list_to_map entries ∪ d.
Proof.
  revert d. induction entries as [|[k v] entries IH]; intros d Hnd.
  - simpl. now rewrite (left_id_L ∅ (∪)).
  - simpl in *. apply NoDup_cons in Hnd as [Hk Hnd].
    rewrite IH by assumption.
    rewrite <- insert_union_l. symmetry. apply insert_union_r.
    now apply not_elem_of_list_to_map_1.
Qed.

Lemma assign_iter (o d : gmap K V) :
  foldl (fun d kv => <[fst kv := snd kv]> d) d (iter o) = o ∪ d.
Proof.
  assert (Hnd : NoDup ((iter o).*1)).
  { rewrite (iter_perm o). apply NoDup_fst_map_to_list. }
  rewrite assign_union by assumption.
  rewrite (list_to_map_proper _ _ Hnd (iter_perm o)).
  now rewrite list_to_map_to_list.
Qed.

(** The loop over the sources, started in a heap [h1] that differs from [h]
    at the destination only. *)
Lemma extend_loop (l : positive) (on : list (option positive))
    (h h1 : gmap positive (gmap K V)) (d : gmap K V) :
  h1 !! l = Some d ->
  (forall l', l' <> l -> h1 !! l' = h !! l') ->
  foldM (fun h2 o =>
           foldM (fun h3 kv => funcmap.mapassign (Some l) (fst kv) (snd kv) h3)
                 h2 (funcmap.maprange iter o h2)) h1 on
  = Ok (<[l := merged h l on d]> h1).
Proof.
  revert h1 d. induction on as [|o on IH]; intros h1 d Hl Hframe.
  - simpl. now rewrite insert_id.
  - rewrite foldM_cons, (assign_entries l _ h1 d Hl). cbn [bind].
    assert (Hsrc : foldl (fun d kv => <[fst kv := snd kv]> d) d
                     (funcmap.maprange iter o h1)
                   = source_map h l d o ∪ d).
    { destruct o as [l'|]; simpl.
      - rewrite assign_iter. destruct (decide (l' = l)) as [->|Hne].
        + now rewrite (lookup_total_correct _ _ _ Hl).
        + now rewrite !lookup_total_alt, (Hframe _ Hne).
      - now rewrite (left_id_L ∅ (∪)). }
    rewrite Hsrc.
    rewrite (IH _ (source_map h l d o ∪ d)).
    + now rewrite insert_insert_eq.
    + apply lookup_insert_eq.
    + intros l' Hne. rewrite lookup_insert_ne by congruence. now apply Hframe.
Qed.

(** [extend] on a destination that is not nil returns the destination in a
    heap that is changed at the destination only, where it holds the
    sources laid over its old contents. *)
Lemma extend_merged (deep : bool) (l : positive) (on : list (option positive))
    (h : gmap positive (gmap K V)) (d : gmap K V) :
  h !! l = Some d ->
  funcmap.extend iter deep (Some l) on h
  = Ok (Some l, <[l := merged h l on d]> h).
Proof.
  intros Hl. unfold funcmap.extend.
  now rewrite (extend_loop l on h h d Hl) by reflexivity.
Qed.


Lemma merged_keeps (h : gmap positive (gmap K V)) (l : positive)
    (post : list (option positive)) (k : K) (v : V) :
  (forall l'', Some l'' ∈ post -> l'' = l \/ (h !!! l'') !! k = None) ->
  forall d1, d1 !! k = Some v -> merged h l post d1 !! k = Some v.
Proof.
  unfold merged. induction post as [|o post IH]; intros Hpost d1 Hd1.
  - exact Hd1.
  - simpl. apply IH.
    + intros l'' Hin. apply Hpost. now right.
    + destruct o as [l''|]; simpl.
      * destruct (decide (l'' = l)) as [->|Hne].
        -- now apply lookup_union_Some_l.
        -- destruct (Hpost l'') as [->|Hnone]; [now left|now destruct Hne|].
           rewrite lookup_union_r; assumption.
      * rewrite lookup_union_r; [assumption|apply lookup_empty].
Qed.





(** On a nil destination the first entry to assign panics. *)
Lemma extend_nil_dest (deep : bool) (o : positive) (on : list (option positive))
    (h : gmap positive (gmap K V)) (kv : K * V) (rest : list (K * V)) :
  iter (h !!! o) = kv :: rest ->
  funcmap.extend iter deep None (Some o :: on) h = Panic NilMapAssign.
Proof.
  intros Hit. unfold funcmap.extend. simpl. now rewrite Hit.
Qed.

End ExtendProperties.

(** * The properties on concrete inputs

    From here on the Go library is [go] and the declarations of the
    package are [pug]. *)

(** ** tryindex *)

(** The example of the specification: [tryindex(Array[10,20,30], 5)]. *)
Lemma tryindex_array_out_of_range_witness :
  (5 < 0 \/ Z.of_nat (length [Number 10; Number 20; Number 30]) <= 5)
  /\ funcmap.tryindex (hobj (Array [Number 10; Number 20; Number 30])) (hint Int 5)
     = Panic IndexOutOfRange.
Proof.
  assert (Hr : 5 < 0 \/ Z.of_nat (length [Number 10; Number 20; Number 30]) <= 5)
    by (right; simpl; lia).
  split; [exact Hr|].
  exact (tryindex_array_out_of_range [Number 10; Number 20; Number 30] 5 Hr).
Defined.

Example tryindex_array_1 :
  funcmap.tryindex (hobj (Array [Number 10; Number 20; Number 30])) (hint Int 1)
  = Ok (hobj (Number 20)).
Proof. reflexivity. Qed.

Example tryindex_slice_5 :
  funcmap.tryindex (hslice [hint Int 10; hint Int 20; hint Int 30]) (hint Int 5)
  = Ok hnil.
Proof. reflexivity. Qed.

(** ** Arithmetic *)

Lemma sub_unary_witness :
  kindOf (hint Int 7) = KInt 7
  /\ - 2 ^ 63 < 7 < 2 ^ 63
  /\ runtimeSub [hint Int 7] = Ok (hint Int (- 7))
  /\ kindOf (hfloat Float64 1.5) = KFloat 1.5
  /\ runtimeSub [hfloat Float64 1.5]
     = Ok (hfloat Float64 (PrimFloat.sub (float64_of_int 0) 1.5))
  /\ numOf (huint Uint 3) = None
  /\ runtimeSub [huint Uint 3] = Ok no_value.
Proof.
  assert (Hr : - 2 ^ 63 < 7 < 2 ^ 63) by lia.
  split; [reflexivity|]. split; [exact Hr|].
  split; [exact (proj2 (proj1 (sub_unary (hint Int 7)) 7 eq_refl) Hr)|].
  split; [reflexivity|].
  split; [exact (proj1 (proj2 (sub_unary (hfloat Float64 1.5))) 1.5%float eq_refl)|].
  split; [reflexivity|].
  exact (proj2 (proj2 (sub_unary (huint Uint 3))) eq_refl).
Defined.

(** C9 fails as stated: an unsigned integer is a numeric argument, and
    [sub] of the single argument [uint(3)] is the no-value text, not
    0 - 3. *)
Lemma sub_unary_unsigned :
  spec_numeric (huint Uint 3) = Some (float64_of_int 3)
  /\ runtimeSub [huint Uint 3] = Ok no_value
  /\ ~ (forall y fy, spec_numeric y = Some fy ->
          exists r, runtimeSub [y] = Ok r
                    /\ spec_numeric r = Some (PrimFloat.sub (float64_of_int 0) fy)).
Proof.
  split; [reflexivity|]. split; [reflexivity|].
  intros Hspec.
  destruct (Hspec (huint Uint 3) _ eq_refl) as (r & Hr & Hf).
  injection Hr as <-. discriminate Hf.
Qed.

Example sub_unary_min :
  runtimeSub [hint Int64 MinInt64] = Ok (hint Int MinInt64).
Proof. reflexivity. Qed.

(** C3 fails as stated.  The int difference of 2^53 + 1 and 1 is exact,
    in whichever order, where the difference of the two operands coerced
    to float64 is 2^53 - 1; the int product of 2^62 and 4 wraps around to
    0; operands of an unsigned integer kind give the no-value text. *)
Lemma arithmetic_not_ieee :
  ~ spec_ieee (fun x y => runtimeSub [x; y]) PrimFloat.sub
  /\ ~ spec_ieee (fun x y => Ok (runtimeMul x y)) PrimFloat.mul
  /\ ~ spec_ieee (fun x y => Ok (runtimeQuo x y)) PrimFloat.div.
Proof.
  split; [|split]; intros Hspec.
  - destruct (Hspec (hint Int (2 ^ 53 + 1)) (hint Int 1) _ _ eq_refl eq_refl)
      as (r & Hr & Hf).
    injection Hr as <-. vm_compute in Hf. discriminate Hf.
  - destruct (Hspec (hint Int (2 ^ 62)) (hint Int 4) _ _ eq_refl eq_refl)
      as (r & Hr & Hf).
    injection Hr as <-. vm_compute in Hf. discriminate Hf.
  - destruct (Hspec (huint Uint 1) (huint Uint 2) _ _ eq_refl eq_refl)
      as (r & Hr & Hf).
    injection Hr as <-. vm_compute in Hf. discriminate Hf.
Qed.

(** Both orders of the int difference of 2^53 + 1 and 1 differ from the
    float64 difference of the coerced operands. *)
Example sub_int_exact :
  spec_numeric (difference (NInt (2 ^ 53 + 1)) (NInt 1)) = Some 9007199254740992%float
  /\ spec_numeric (difference (NInt 1) (NInt (2 ^ 53 + 1)))
     = Some (-9007199254740992)%float
  /\ PrimFloat.sub (float64_of_int (2 ^ 53 + 1)) (float64_of_int 1)
     = 9007199254740991%float.
Proof. repeat split; vm_compute; reflexivity. Qed.

Lemma arithmetic_matrix_witness :
  numOf (hint Int 5) = Some (NInt 5)
  /\ numOf (hfloat Float64 2) = Some (NFloat 2)
  /\ (runtimeSub [hint Int 5; hfloat Float64 2] = Ok (difference (NInt 5) (NFloat 2))
      \/ runtimeSub [hint Int 5; hfloat Float64 2] = Ok (difference (NFloat 2) (NInt 5)))
  /\ runtimeMul (hint Int 5) (hfloat Float64 2) = hfloat Float64 10
  /\ runtimeQuo (hint Int 5) (hfloat Float64 2) = hfloat Float64 2.5
  /\ (forall a b, ~ (kindOf (hint Int 5) = KInt a /\ kindOf (hfloat Float64 2) = KInt b))
  /\ runtimeRem (hint Int 5) (hfloat Float64 2) = Ok no_value
  /\ (numOf (huint Uint 1) = None \/ numOf (hint Int 2) = None)
  /\ runtimeSub [huint Uint 1; hint Int 2] = Ok no_value
  /\ runtimeMul (huint Uint 1) (hint Int 2) = no_value
  /\ runtimeQuo (huint Uint 1) (hint Int 2) = no_value.
Proof.
  assert (Hno : forall a b,
             ~ (kindOf (hint Int 5) = KInt a /\ kindOf (hfloat Float64 2) = KInt b))
    by (intros a b [_ Hb]; discriminate Hb).
  assert (Hnone : numOf (huint Uint 1) = None \/ numOf (hint Int 2) = None)
    by (left; reflexivity).
  destruct (arithmetic_matrix (hint Int 5) (hfloat Float64 2)) as (Hnum & _ & Hrem).
  destruct (Hnum (NInt 5) (NFloat 2) eq_refl eq_refl) as (Hs & Hm & Hq).
  destruct (arithmetic_matrix (huint Uint 1) (hint Int 2)) as (_ & Hother & _).
  destruct (Hother Hnone) as (Hs' & Hm' & Hq').
  split; [reflexivity|]. split; [reflexivity|].
  split; [exact Hs|]. split; [exact Hm|]. split; [exact Hq|].
  split; [exact Hno|]. split; [exact (Hrem Hno)|].
  split; [exact Hnone|]. split; [exact Hs'|]. split; [exact Hm'|]. exact Hq'.
Defined.

Example sub_5_3 : runtimeSub [hint Int 5; hint Int 3] = Ok (hint Int (-2)).
Proof. reflexivity. Qed.

Example quo_1_2 : runtimeQuo (hint Int 1) (hint Int 2) = hfloat Float64 0.5.
Proof. reflexivity. Qed.

Example quo_1_0 : runtimeQuo (hint Int 1) (hint Int 0) = hfloat Float64 infinity.
Proof. reflexivity. Qed.

Example rem_7_2 : runtimeRem (hint Int (-7)) (hint Int 2) = Ok (hint Int (-1)).
Proof. reflexivity. Qed.

(** ** Equality and ordering *)

(** C5 fails as stated: [eql(false, 1)] is false although the int is not
    zero, and [eql(false, 0)] is false although the bool agrees with the
    int being nonzero. *)
Lemma eql_bool_int_not_nonzero :
  ~ (forall (b : bool) (k : IntKind) (n : Z),
        runtimeEql (hbool b) (hint k n) = true <-> n <> 0)
  /\ ~ (forall (b : bool) (k : IntKind) (n : Z),
          runtimeEql (hbool b) (hint k n) = true <-> (b = true <-> n <> 0)).
Proof.
  split; intros Hspec.
  - destruct (Hspec false Int 1) as [_ Hy].
    assert (Hn : (1 : Z) <> 0) by lia.
    specialize (Hy Hn). discriminate Hy.
  - destruct (Hspec false Int 0) as [_ Hy].
    assert (Hagree : false = true <-> (0 : Z) <> 0)
      by (split; [discriminate | intros Hz; now destruct Hz]).
    specialize (Hy Hagree). discriminate Hy.
Qed.

Lemma eql_bool_int_witness :
  (runtimeEql (hbool true) (hint Int 2) = true <-> true = true /\ 2 <> 0)
  /\ runtimeEql (hint Int 1) (hbool true) = false
  /\ in_eql_matrix (hint Int 1) (hbool true) = false
  /\ in_eql_matrix (hslice []) (hslice []) = false
  /\ runtimeEql (hslice []) (hslice []) = false.
Proof.
  destruct (@eql_bool_int go) as (Hbi & Hib & Hout).
  split; [exact (Hbi true Int 2)|].
  split; [exact (Hib Int 1 true)|].
  split; [reflexivity|]. split; [reflexivity|].
  exact (Hout (hslice []) (hslice []) eq_refl).
Defined.

Example eql_5_text :
  runtimeEql (hint Int 5) (hstring "5") = true
  /\ runtimeEql (hstring "5") (hint Int 5) = true
  /\ runtimeEql (hfloat Float64 1.5) (hstring "1.500000") = true
  /\ runtimeEql (hint Int 1) (hfloat Float64 1) = true.
Proof. repeat split; vm_compute; reflexivity. Qed.

(** C7 fails as stated: two nil values are outside both matrices, and
    [gtr] is true for them, not false. *)
Lemma gtr_outside_matrices_true :
  in_lss_matrix hnil hnil = false
  /\ in_eql_matrix hnil hnil = false
  /\ runtimeGtr hnil hnil = true
  /\ ~ (forall x y, in_lss_matrix x y = false -> in_eql_matrix x y = false ->
                    runtimeGtr x y = false).
Proof.
  repeat split.
  intros Hspec. specialize (Hspec hnil hnil eq_refl eq_refl). discriminate Hspec.
Qed.

Lemma gtr_derived_witness :
  runtimeGtr (hbool true) (hslice [])
    = negb (runtimeLss (hbool true) (hslice []))
      && negb (runtimeEql (hbool true) (hslice []))
  /\ in_lss_matrix (hbool true) (hslice []) = false
  /\ in_eql_matrix (hbool true) (hslice []) = false
  /\ runtimeGtr (hbool true) (hslice []) = true.
Proof.
  destruct (@gtr_derived go (hbool true) (hslice [])) as [Hdef Hout].
  split; [exact Hdef|]. split; [reflexivity|]. split; [reflexivity|].
  exact (Hout eq_refl eq_refl).
Defined.

Example gtr_3_2 :
  runtimeGtr (hint Int 3) (hint Int 2) = true
  /\ runtimeGtr (hint Int 2) (hint Int 3) = false
  /\ runtimeGtr (hint Int 2) (hint Int 2) = false.
Proof. repeat split. Qed.

(** ** add *)

(** What [strconv.ParseFloat] returns with an error: zero for text that is
    no numeral, an infinity for a numeral out of range. *)
Lemma ParseFloat_failure (t : string) (f : float) :
  ParseFloat t = (f, true) ->
  f = zero \/ exists neg g, f = golib.signed neg g /\ is_infinity g = true.
Proof.
  unfold ParseFloat; simpl. unfold golib.ParseFloat.
  destruct (golib.read_sign (golib.to_lower t)) as [neg body].
  destruct (String.eqb body "inf" || String.eqb body "infinity"); [discriminate|].
  destruct (String.eqb (golib.to_lower t) "nan"); [discriminate|].
  destruct (golib.read_decimal t) as [[[neg' m] e10]|].
  - intros [= <- Hinf]. right. now exists neg', (golib.decimal_to_float m e10).
  - intros [= <-]. now left.
Qed.

(** C6 fails as stated: the numeral 1e999 is beyond the float64 range, its
    parse fails with a range error and an infinite float, and [add(1,
    "1e999")] is that infinity, not 1 + 0.0. *)
Lemma add_parse_failure_not_zero :
  ParseFloat "1e999" = (infinity, true)
  /\ runtimeAdd (hint Int 1) (hstring "1e999") = Number infinity
  /\ ~ (forall l r fx sy,
          convert l = Number fx -> convert r = String' sy ->
          runtimeAdd l r = Number (PrimFloat.add fx (spec_parse sy))).
Proof.
  split; [vm_compute; reflexivity|]. split; [vm_compute; reflexivity|].
  intros Hspec.
  specialize (Hspec (hint Int 1) (hstring "1e999") _ _ eq_refl eq_refl).
  vm_compute in Hspec. discriminate Hspec.
Qed.

Lemma add_matrix_witness :
  (forall t, String_of (String' t) = t)
  /\ convert (hstring "a") = String' "a"
  /\ runtimeAdd (hstring "a") (hint Int 5) = String' ("a" +:+ String_of (convert (hint Int 5)))
  /\ convert (hint Int 1) = Number 1
  /\ convert (hstring "2.5") = String' "2.5"
  /\ runtimeAdd (hint Int 1) (hstring "2.5")
     = Number (PrimFloat.add 1 (fst (ParseFloat "2.5")))
  /\ (forall sx, convert (hbool true) <> String' sx)
  /\ (forall fx, convert (hbool true) <> Number fx)
  /\ runtimeAdd (hbool true) (hint Int 1) = Nil.
Proof.
  assert (Hstr : forall t, String_of (String' t) = t) by reflexivity.
  assert (Hs : forall sx, convert (hbool true) <> String' sx) by discriminate.
  assert (Hn : forall fx, convert (hbool true) <> Number fx) by discriminate.
  split; [exact Hstr|]. split; [reflexivity|].
  split; [exact (proj1 (add_matrix (hstring "a") (hint Int 5) Hstr) "a" eq_refl)|].
  split; [reflexivity|]. split; [reflexivity|].
  split.
  { exact (proj1 (proj2 (proj1 (proj2 (add_matrix (hint Int 1) (hstring "2.5") Hstr))
                          1%float eq_refl))
                 "2.5" eq_refl). }
  split; [exact Hs|]. split; [exact Hn|].
  exact (proj2 (proj2 (add_matrix (hbool true) (hint Int 1) Hstr)) Hs Hn).
Defined.

Example add_examples :
  runtimeAdd (hstring "a") (hint Int 5) = String' "a5"
  /\ runtimeAdd (hint Int 1) (hstring "2.5") = Number 3.5
  /\ runtimeAdd (hint Int 1) (hint Int 2) = Number 3
  /\ runtimeAdd (hint Int 1) (hstring "x") = Number 1
  /\ runtimeAdd (hint Int 1) hnil = Nil
  /\ runtimeAdd hnil (hint Int 1) = Nil.
Proof. repeat split; vm_compute; reflexivity. Qed.

(** ** s *)

(** C8 fails as stated: [s("a", "b")] is a space followed by ab; nothing
    separates the two arguments. *)
Lemma s_not_space_joined :
  funcmap.s [hstring "a"; hstring "b"] = " ab"
  /\ spec_s [hstring "a"; hstring "b"] = "a b"
  /\ funcmap.s [hstring "a"; hstring "b"] <> spec_s [hstring "a"; hstring "b"].
Proof.
  split; [reflexivity|]. split; [reflexivity|]. discriminate.
Qed.

Example s_examples :
  funcmap.s [hstring "a"] = EmptyString
  /\ funcmap.s [] = EmptyString
  /\ funcmap.s [hnil; hstring "ab"; hnil] = " ab"
  /\ funcmap.s [hstring "btn"; hstring " btn-lg "] = " btn btn-lg"
  /\ funcmap.s [hint Int 1; hint Int 2] = " 12".
Proof. repeat split; vm_compute; reflexivity. Qed.

(** ** attr and _Range *)

Example attr_example :
  funcmap.attr (hstring "a b") (hstring "data") = Ok "data-a data-b"
  /\ funcmap.attr hnil (hstring "data") = Ok EmptyString.
Proof. split; reflexivity. Qed.

Example Range_examples :
  funcmap._Range [0; 5] = Ok (Array [Number 0; Number 1; Number 2; Number 3; Number 4])
  /\ funcmap._Range [2; 5] = Ok (Array [Number 2; Number 3; Number 4])
  /\ funcmap._Range [3] = Ok (Array [Number 0; Number 1; Number 2])
  /\ funcmap._Range [5; 2] = Ok (Array []).
Proof. repeat split; vm_compute; reflexivity. Qed.

(** ** __add_andattributes *)

(** C4 fails as stated: for the map with the entries a: 1 and b: 2 and no
    known key, both orders of the two fragments are possible outputs. *)
Lemma add_andattributes_two_orders :
  funcmap.__add_andattributes attrs_ab [] (quoted "a" "1" +:+ " " +:+ quoted "b" "2")
  /\ funcmap.__add_andattributes attrs_ab [] (quoted "b" "2" +:+ " " +:+ quoted "a" "1")
  /\ quoted "a" "1" +:+ " " +:+ quoted "b" "2"
     <> quoted "b" "2" +:+ " " +:+ quoted "a" "1".
Proof.
  split; [|split].
  - exists [(String' "a", String' "1"); (String' "b", String' "2")].
    split; reflexivity.
  - exists [(String' "b", String' "2"); (String' "a", String' "1")].
    split; [apply Permutation_swap | reflexivity].
  - discriminate.
Qed.

Lemma add_andattributes_fragments_witness :
  funcmap.__add_andattributes attrs_id_class ["class"] (quoted "id" "x")
  /\ exists frags1 frags2,
       quoted "id" "x" = TrimSpace (appended frags1)
       /\ quoted "id" "x" = TrimSpace (appended frags2)
       /\ frags1 ≡ₚ frags2
       /\ (forall Items, attrs_id_class = Map (Some Items) ->
                         frags1 ≡ₚ fragments ["class"] Items)
       /\ ((length frags1 <= 1)%nat -> quoted "id" "x" = quoted "id" "x").
Proof.
  assert (Hout : funcmap.__add_andattributes attrs_id_class ["class"]
                   (quoted "id" "x")).
  { exists [(String' "id", String' " x "); (String' "class", String' "c")].
    split; reflexivity. }
  split; [exact Hout|].
  exact (add_andattributes_fragments _ _ _ _ Hout Hout).
Defined.

(** ** extend *)


(** [extend(false, {a:1}, {a:2, b:3})] leaves a: 2, b: 3 in the
    destination. *)
Example extend_example :
  funcmap.extend map_to_list false (Some 1%positive) [Some 2%positive] heap_ab
  = Ok (Some 1%positive,
        {[ 1%positive := {[ "a" := 2; "b" := 3 ]};
           2%positive := {[ "a" := 2; "b" := 3 ]} ]}).
Proof. vm_compute. reflexivity. Qed.

(** A source that is the destination itself is changed with it. *)
Example extend_aliased_source :
  funcmap.extend map_to_list false (Some 1%positive)
    [Some 2%positive; Some 1%positive] heap_ab
  = Ok (Some 1%positive,
        {[ 1%positive := {[ "a" := 2; "b" := 3 ]};
           2%positive := {[ "a" := 2; "b" := 3 ]} ]}).
Proof. vm_compute. reflexivity. Qed.

(** * Further properties of the function table *)

Section MoreProperties.
Context `{GoLib} `{Pugast}.

(** ** tryindex *)

(** X1: an [*Array] is indexed by a key of the type int only.  With such
    a key inside the range [tryindex] returns the item at that index; with
    a key of any other signed integer kind, an int64 say, it does not
    index at all but looks up the field named by the string form of the
    key, inside the range or not. *)
Theorem tryindex_array (items : list Object) (k : IntKind) (idx : Z) :
  (forall o, 0 <= idx -> items !! Z.to_nat idx = Some o ->
             funcmap.tryindex (hobj (Array items)) (hint Int idx) = Ok (hobj o))
  /\ (k <> Int ->
      funcmap.tryindex (hobj (Array items)) (hint k idx)
      = Ok (hobj (Field (Array items) (String_of (convert (hint k idx)))))).
Proof.
  split.
  - intros o Hi Ho. now apply tryindex_array_in_range.
  - intros Hk. destruct k; try reflexivity. now destruct Hk.
Qed.

(** X2: on a plain slice, which [indirect] returns as it is, [tryindex]
    with a key of any signed integer kind returns the element inside the
    range, nil at or above the length, and panics below zero: the
    reflective path guards the upper bound only. *)
Theorem tryindex_slice (l : list host) (k : IntKind) (idx : Z) :
  indirect (hslice l) = (hslice l, false) ->
  (forall x, 0 <= idx -> l !! Z.to_nat idx = Some x ->
             funcmap.tryindex (hslice l) (hint k idx) = Ok x)
  /\ (Z.of_nat (length l) <= idx ->
      funcmap.tryindex (hslice l) (hint k idx) = Ok hnil)
  /\ (idx < 0 ->
      funcmap.tryindex (hslice l) (hint k idx) = Panic IndexOutOfRange).
Proof.
  intros Hind. split; [|split].
  - intros x Hi Hx. unfold funcmap.tryindex. rewrite Hind. simpl.
    apply lookup_lt_Some in Hx as Hlt.
    replace (Z.of_nat (length l) >? idx) with true
      by (symmetry; rewrite Z.gtb_ltb; apply Z.ltb_lt; lia).
    now apply index_in_range.
  - intros Hi. now apply tryindex_slice_out_of_range.
  - intros Hi. unfold funcmap.tryindex. rewrite Hind. simpl.
    replace (Z.of_nat (length l) >? idx) with true
      by (symmetry; rewrite Z.gtb_ltb; apply Z.ltb_lt; lia).
    apply index_out_of_range. now left.
Qed.

(** X3: a receiver that is no [Object] with a key that is not of a signed
    integer kind makes [tryindex] panic: [reflect.ValueOf(key).Int()] is
    evaluated before anything is known about the receiver.  A host map
    looked up with a string key is such a call. *)
Theorem tryindex_key_not_int (obj key : host) :
  (forall o, obj <> hobj o) ->
  (forall n, kindOf key <> KInt n) ->
  funcmap.tryindex obj key = Panic ReflectKind.
Proof.
  intros Hobj Hkey.
  assert (Hint : reflect_Int key = Panic ReflectKind).
  { unfold reflect_Int. destruct (kindOf key) eqn:E; try reflexivity.
    now destruct (Hkey n). }
  unfold funcmap.tryindex.
  destruct obj; try (now destruct (Hobj o));
    destruct key as [| | [] | | | | | |]; destruct (indirect _);
    rewrite ?Hint; try reflexivity;
    simpl in Hint; discriminate Hint.
Qed.

(** ** _Range *)

Lemma Range_two (o m : Z) (rest : list Z) :
  funcmap._Range (o :: m :: rest)
  = Ok (convert (hslice (hint Int <$> seqZ o (m - o)))).
Proof.
  unfold funcmap._Range.
  rewrite (index_in_range (o :: m :: rest) 1 m) by (reflexivity || lia).
  cbn [bind].
  rewrite (index_in_range (o :: m :: rest) 0 o) by (reflexivity || lia).
  reflexivity.
Qed.

(** X4: [_Range] with two or more arguments never panics and looks at the
    first two only: from [o] and [m] it builds the slice of the
    [max(0, m - o)] ints [o, o + 1, ...], which it converts.  With the one
    argument [m] it returns what it returns for 0 and [m]. *)
Theorem Range_contents (o m : Z) (rest : list Z) :
  (exists l,
      funcmap._Range (o :: m :: rest) = Ok (convert (hslice l))
      /\ length l = Z.to_nat (m - o)
      /\ forall i : nat, (i < length l)%nat ->
                         l !! i = Some (hint Int (o + Z.of_nat i)))
  /\ funcmap._Range [m] = funcmap._Range (0 :: m :: rest).
Proof.
  split; [|now rewrite Range_two].
  exists (hint Int <$> seqZ o (m - o)).
  split; [apply Range_two|].
  split; [now rewrite length_fmap, length_seqZ|].
  intros i Hi. rewrite length_fmap, length_seqZ in Hi.
  rewrite list_lookup_fmap, lookup_seqZ_lt by lia. reflexivity.
Qed.

(** ** attr *)

Lemma mapM_total {A B : Type} (f : A -> B) (l : list A) :
  mapM (fun a => Ok (f a)) l = Ok (f <$> l).
Proof.
  induction l as [|a l IH]; [reflexivity|].
  simpl. now rewrite IH.
Qed.

Lemma attr_strings (a p : string) :
  funcmap.attr (hstring a) (hstring p)
  = Ok (Join ((fun v => p +:+ "-" +:+ v) <$> Split a space) " ").
Proof.
  unfold funcmap.attr. now rewrite mapM_total.
Qed.

Lemma Split_not_nil (a : string) : Split a space <> [].
Proof.
  destruct a as [|c a]; simpl; [discriminate|].
  destruct (Ascii.eqb c space); [discriminate|].
  destruct (Split a space); discriminate.
Qed.

Lemma no_space_cons (c : ascii) (w : string) :
  no_space (String c w) <-> c <> space /\ no_space w.
Proof.
  unfold no_space. simpl. split.
  - intros Hn. split; [intros ->; apply Hn; now left|].
    intros Hin. apply Hn. now right.
  - intros [Hc Hw] [Heq|Hin]; [now apply Hc|now apply Hw].
Qed.

Lemma no_space_append (a b : string) :
  no_space a -> no_space b -> no_space (a +:+ b).
Proof.
  intros Ha Hb. induction a as [|c a IH]; [exact Hb|].
  rewrite append_cons. apply no_space_cons in Ha as [Hc Ha].
  apply no_space_cons. split; [exact Hc|now apply IH].
Qed.

Lemma Split_word (w : string) : no_space w -> Split w space = [w].
Proof.
  induction w as [|c w IH]; intros Hw; [reflexivity|].
  apply no_space_cons in Hw as [Hc Hw]. simpl.
  apply Ascii.eqb_neq in Hc. rewrite Hc, (IH Hw). reflexivity.
Qed.

Lemma Split_word_space (w rest : string) :
  no_space w ->
  Split (w +:+ String space rest) space = w :: Split rest space.
Proof.
  induction w as [|c w IH]; intros Hw.
  - reflexivity.
  - apply no_space_cons in Hw as [Hc Hw]. rewrite append_cons. simpl.
    apply Ascii.eqb_neq in Hc. rewrite Hc, (IH Hw). reflexivity.
Qed.

Lemma Split_Join (l : list string) :
  l <> [] -> Forall no_space l -> Split (Join l " ") space = l.
Proof.
  intros Hne Hall. induction l as [|w l IH]; [now destruct Hne|].
  apply Forall_cons in Hall as [Hw Hall].
  destruct l as [|w' l].
  - simpl. now apply Split_word.
  - change (Join (w :: w' :: l) " ") with (w +:+ String space (Join (w' :: l) " ")).
    rewrite (Split_word_space _ _ Hw), IH; [reflexivity|discriminate|exact Hall].
Qed.

Lemma Split_words (a : string) : Forall no_space (Split a space).
Proof.
  induction a as [|c a IH]; simpl.
  - constructor; [|constructor]. intros [].
  - destruct (Ascii.eqb c space) eqn:Hc.
    + constructor; [intros []|exact IH].
    + destruct (Split a space) as [|w ws]; constructor;
        try (apply no_space_cons; split;
             [now apply Ascii.eqb_neq|]); try constructor.
      * intros [].
      * now apply Forall_cons in IH as [Hw _].
      * now apply Forall_cons in IH as [_ Hws].
Qed.

(** The pieces [strings.Split] cuts at the spaces, joined with spaces, are
    the text again. *)
Lemma Join_Split (a : string) : Join (Split a space) " " = a.
Proof.
  induction a as [|c a IH]; [reflexivity|]. simpl.
  destruct (Ascii.eqb c space) eqn:Hc.
  - apply Ascii.eqb_eq in Hc as ->.
    pose proof (Split_not_nil a) as Hne.
    destruct (Split a space) as [|w ws]; [now destruct Hne|].
    change (Join (EmptyString :: w :: ws) " ") with (String space (Join (w :: ws) " ")).
    now rewrite IH.
  - pose proof (Split_not_nil a) as Hne.
    destruct (Split a space) as [|w ws]; [now destruct Hne|].
    destruct ws as [|w' ws].
    + simpl in *. now rewrite IH.
    + change (Join (String c w :: w' :: ws) " ")
        with (String c (Join (w :: w' :: ws) " ")).
      now rewrite IH.
Qed.

(** X5: [attr] on two strings never panics: it returns the pieces of the
    input cut at the spaces, each with the prefix and a dash before it,
    joined with spaces.  With a prefix that holds no space the result,
    cut at the spaces, is piece for piece the input cut at the spaces with
    the prefix and a dash put before each piece: as many pieces as the
    input has, the empty ones between two spaces included. *)
Theorem attr_pieces (a p : string) :
  exists r,
    funcmap.attr (hstring a) (hstring p) = Ok r
    /\ r = Join ((fun v => p +:+ "-" +:+ v) <$> Split a space) " "
    /\ (no_space p ->
        Split r space = (fun v => p +:+ "-" +:+ v) <$> Split a space
        /\ length (Split r space) = length (Split a space)).
Proof.
  eexists. split; [apply attr_strings|]. split; [reflexivity|]. intros Hp.
  assert (Hs : Split (Join ((fun v => p +:+ "-" +:+ v) <$> Split a space) " ") space
               = (fun v => p +:+ "-" +:+ v) <$> Split a space).
  { apply Split_Join.
    - pose proof (Split_not_nil a) as Hne.
      destruct (Split a space); [now destruct Hne|discriminate].
    - apply Forall_fmap. eapply Forall_impl; [apply Split_words|].
      intros v Hv. simpl. apply no_space_append; [exact Hp|].
      apply (no_space_append "-"); [|exact Hv].
      unfold no_space. simpl. intros [Heq|[]]. discriminate Heq. }
  split; [exact Hs|]. now rewrite Hs, length_fmap.
Qed.

(** The empty string is no nil: [attr] of it returns the prefix followed
    by a dash, for every string prefix. *)
Lemma attr_empty (p : string) :
  funcmap.attr (hstring EmptyString) (hstring p) = Ok (p +:+ "-").
Proof.
  rewrite attr_strings. simpl. reflexivity.
Qed.

(** ** __add_andattributes *)

Lemma fragments_known_set (k1 k2 : list string) (Items : list (Object * Object)) :
  (forall x, x ∈ k1 <-> x ∈ k2) -> fragments k1 Items = fragments k2 Items.
Proof.
  intros Hk. unfold fragments. f_equal. apply list_filter_iff.
  intros kv. now rewrite Hk.
Qed.

(** X6: only the set of the known keys matters to [__add_andattributes]:
    two lists of known keys with the same members, in any order and with
    any repetitions, allow the same outputs. *)
Theorem add_andattributes_known_set (attrs : Object) (k1 k2 : list string)
    (out : string) :
  (forall x, x ∈ k1 <-> x ∈ k2) ->
  funcmap.__add_andattributes attrs k1 out
  <-> funcmap.__add_andattributes attrs k2 out.
Proof.
  intros Hk. unfold funcmap.__add_andattributes.
  destruct attrs as [| | | | |[Items|]]; try reflexivity.
  split; intros (visited & Hp & ->); exists visited; (split; [exact Hp|]);
    rewrite !andattributes_loop_fragments;
    now rewrite (fragments_known_set k1 k2 visited Hk).
Qed.

Lemma filter_none {A : Type} (P : A -> Prop) `{forall x, Decision (P x)}
    (l : list A) :
  (forall x, x ∈ l -> ~ P x) -> filter P l = [].
Proof.
  induction l as [|a l IH]; intros Hl; [reflexivity|].
  rewrite filter_cons, decide_False by (apply Hl; now left).
  apply IH. intros x Hx. apply Hl. now right.
Qed.

(** X7: when every key of the map is a known key nothing is emitted: the
    only output is the trimmed empty text, whatever the order of the
    visit. *)
Theorem add_andattributes_all_known (Items : list (Object * Object))
    (k : list string) (out : string) :
  (forall kv, kv ∈ Items -> String_of (fst kv) ∈ k) ->
  funcmap.__add_andattributes (Map (Some Items)) k out
  <-> out = TrimSpace EmptyString.
Proof.
  intros Hall.
  assert (Hnone : forall visited, visited ≡ₚ Items -> fragments k visited = []).
  { intros visited Hp. unfold fragments.
    replace (filter (fun kv => String_of (fst kv) ∉ k) visited) with (@nil (Object * Object));
      [reflexivity|].
    symmetry. apply filter_none.
    intros kv Hin Hnot. apply Hnot, Hall. now rewrite <- Hp. }
  unfold funcmap.__add_andattributes. split.
  - intros (visited & Hp & ->).
    now rewrite andattributes_loop_fragments, (Hnone _ Hp).
  - intros ->. exists Items. split; [reflexivity|].
    now rewrite andattributes_loop_fragments, (Hnone Items).
Qed.

(** ** sc *)

Lemma sc_from (l : list host) (acc : string) :
  foldl (fun res x =>
           match kindOf x with
           | KInt n => res +:+ Sprintf_d n
           | KFloat f => res +:+ Sprintf_f f
           | KString t => res +:+ t
           | _ => res
           end) acc l
  = acc +:+ appended (css_text <$> l).
Proof.
  revert acc. induction l as [|x l IH]; intros acc.
  - simpl. now rewrite append_empty_r.
  - simpl foldl. rewrite IH. rewrite fmap_cons. unfold css_text at 2.
    simpl appended.
    destruct (kindOf x); rewrite ?append_assoc; reflexivity.
Qed.

Lemma appended_app (l1 l2 : list string) :
  appended (l1 ++ l2) = appended l1 +:+ appended l2.
Proof.
  induction l1 as [|a l1 IH]; [reflexivity|].
  simpl. rewrite IH. now rewrite append_assoc.
Qed.

(** X8: [sc] puts the texts of its arguments one after the other with
    nothing between or around them, so that [sc] of two lists in a row is
    the text of the first followed by the text of the second; arguments
    that are neither of a signed integer kind, nor floats, nor strings
    (nil, booleans, unsigned integers, slices) add nothing. *)
Theorem sc_appends (l1 l2 : list host) :
  sc (l1 ++ l2) = sc l1 +:+ sc l2
  /\ sc l1 = appended (css_text <$> l1)
  /\ sc (filter (fun x => Is_true (printed x)) l1) = sc l1.
Proof.
  assert (Hsc : forall l, sc l = appended (css_text <$> l)).
  { intros l. unfold sc. now rewrite sc_from. }
  split; [|split].
  - now rewrite !Hsc, fmap_app, appended_app.
  - apply Hsc.
  - rewrite !Hsc. induction l1 as [|x l IH]; [reflexivity|].
    rewrite filter_cons. destruct (decide _) as [Hin|Hout].
    + rewrite !fmap_cons. simpl. now rewrite IH.
    + rewrite fmap_cons. simpl. rewrite IH.
      assert (Hx : css_text x = EmptyString).
      { unfold css_text, printed in *. destruct (kindOf x); try reflexivity;
          now destruct Hout. }
      now rewrite Hx.
Qed.

(** ** Comparisons *)

Lemma compare_cont_swap (m1 m2 : positive) :
  Pos.compare_cont Eq m2 m1 = CompOpp (Pos.compare_cont Eq m1 m2).
Proof.
  rewrite (Pos.compare_cont_antisym m1 m2 Eq). reflexivity.
Qed.

Lemma SFcompare_antisym (f1 f2 : spec_float) :
  SFcompare f2 f1 = option_map CompOpp (SFcompare f1 f2).
Proof.
  destruct f1 as [s1|s1| |s1 m1 e1], f2 as [s2|s2| |s2 m2 e2]; simpl;
    try destruct s1; try destruct s2; try reflexivity;
    rewrite (Z.compare_antisym e1 e2); destruct (e1 ?= e2); simpl;
    try reflexivity; rewrite (compare_cont_swap m1 m2); try reflexivity;
    now rewrite CompOpp_involutive.
Qed.

Lemma float_eqb_sym (f g : float) : PrimFloat.eqb f g = PrimFloat.eqb g f.
Proof.
  rewrite !FloatAxioms.eqb_spec. unfold SFeqb.
  rewrite (SFcompare_antisym (Prim2SF f) (Prim2SF g)).
  destruct (SFcompare (Prim2SF f) (Prim2SF g)) as [[]|]; reflexivity.
Qed.

Lemma float_ltb_eqb (f g : float) :
  PrimFloat.ltb f g = true -> PrimFloat.eqb f g = false.
Proof.
  rewrite FloatAxioms.ltb_spec, FloatAxioms.eqb_spec. unfold SFltb, SFeqb.
  destruct (SFcompare (Prim2SF f) (Prim2SF g)) as [[]|]; congruence.
Qed.

Lemma string_compare_refl (b : string) : String.compare b b = Eq.
Proof.
  pose proof (String.compare_antisym b b) as Ha.
  destruct (String.compare b b); simpl in Ha; congruence.
Qed.

Lemma string_ltb_eqb (a b : string) :
  String.ltb a b = true -> String.eqb a b = false.
Proof.
  unfold String.ltb. intros Hlt. apply String.eqb_neq. intros ->.
  rewrite string_compare_refl in Hlt. discriminate Hlt.
Qed.

Lemma string_gtr_converse (a b : string) :
  negb (String.ltb a b) && negb (String.eqb a b) = String.ltb b a.
Proof.
  unfold String.ltb. rewrite (String.compare_antisym a b).
  destruct (String.compare b a) eqn:E; simpl.
  - apply String.compare_eq_iff in E as ->. now rewrite String.eqb_refl.
  - assert (Hne : String.eqb a b = false).
    { apply String.eqb_neq. intros ->.
      rewrite string_compare_refl in E. discriminate E. }
    now rewrite Hne.
  - reflexivity.
Qed.

Lemma lss_eql_exclusive (x y : host) :
  runtimeLss x y = true -> runtimeEql x y = false.
Proof.
  unfold runtimeLss, runtimeEql.
  destruct (kindOf x); destruct (kindOf y); try discriminate;
    try apply float_ltb_eqb; try apply string_ltb_eqb.
  intros Hlt. apply Z.ltb_lt in Hlt. apply Z.eqb_neq. lia.
Qed.

(** X9: for every two host values exactly one of [lss], [eql] and [gtr]
    holds: [lss] and [eql] are never both true, on no pair of kinds, and
    [gtr] is true exactly when both are false. *)
Theorem comparison_trichotomy (x y : host) :
  (runtimeLss x y = true /\ runtimeEql x y = false /\ runtimeGtr x y = false)
  \/ (runtimeLss x y = false /\ runtimeEql x y = true /\ runtimeGtr x y = false)
  \/ (runtimeLss x y = false /\ runtimeEql x y = false /\ runtimeGtr x y = true).
Proof.
  pose proof (lss_eql_exclusive x y) as Hex. unfold runtimeGtr.
  destruct (runtimeLss x y); destruct (runtimeEql x y); simpl.
  - specialize (Hex eq_refl). discriminate Hex.
  - left. repeat split.
  - right. left. repeat split.
  - right. right. repeat split.
Qed.

(** X10: [eql] gives the same answer in both orders of its operands,
    unless one operand is a bool and the other of a signed integer kind.
    Ints, floats and strings are compared the same way in either order. *)
Theorem eql_symmetric (x y : host) :
  (forall b n, ~ (kindOf x = KBool b /\ kindOf y = KInt n)) ->
  (forall b n, ~ (kindOf y = KBool b /\ kindOf x = KInt n)) ->
  runtimeEql x y = runtimeEql y x.
Proof.
  intros Hxy Hyx. unfold runtimeEql.
  destruct (kindOf x) eqn:Ex; destruct (kindOf y) eqn:Ey; try reflexivity;
    try apply Z.eqb_sym; try apply float_eqb_sym; try apply String.eqb_sym.
  - now destruct (Hyx b n).
  - now destruct (Hxy b n).
  - now destruct b, b0.
Qed.

(** X11: on operands of signed integer kinds and strings, in any mix,
    [gtr(x, y)] is [lss(y, x)]: there [gtr] is the converse of [lss]. *)
Theorem gtr_converse (x y : host) :
  int_or_string x = true -> int_or_string y = true ->
  runtimeGtr x y = runtimeLss y x.
Proof.
  unfold int_or_string, runtimeGtr, runtimeLss, runtimeEql.
  destruct (kindOf x); destruct (kindOf y); try discriminate; intros _ _;
    try apply string_gtr_converse.
  destruct (n <? n0) eqn:E1; destruct (n =? n0) eqn:E2;
    destruct (n0 <? n) eqn:E3; simpl; try reflexivity;
    rewrite ?Z.ltb_lt, ?Z.ltb_ge, ?Z.eqb_eq, ?Z.eqb_neq in *; lia.
Qed.

Lemma Prim2SF_nan (f : float) : PrimFloat.is_nan f = true -> Prim2SF f = S754_nan.
Proof.
  intros Hn. unfold Prim2SF. now rewrite Hn.
Qed.

Lemma float_nan_compare (f g : float) :
  PrimFloat.is_nan f = true ->
  PrimFloat.ltb f g = false /\ PrimFloat.ltb g f = false
  /\ PrimFloat.eqb f g = false /\ PrimFloat.eqb g f = false.
Proof.
  intros Hn. rewrite !FloatAxioms.ltb_spec, !FloatAxioms.eqb_spec.
  rewrite (Prim2SF_nan f Hn). unfold SFltb, SFeqb.
  destruct (Prim2SF g); repeat split; reflexivity.
Qed.

(** X12: a NaN is neither less than nor equal to any operand of a signed
    integer or float kind, in either order, so [gtr] is true for it in
    both orders: with a NaN [gtr(x, y)] and [gtr(y, x)] hold together. *)
Theorem gtr_nan (k : FloatKind) (f : float) (x : host) :
  PrimFloat.is_nan f = true ->
  numOf x <> None ->
  runtimeLss (hfloat k f) x = false /\ runtimeLss x (hfloat k f) = false
  /\ runtimeEql (hfloat k f) x = false /\ runtimeEql x (hfloat k f) = false
  /\ runtimeGtr (hfloat k f) x = true /\ runtimeGtr x (hfloat k f) = true.
Proof.
  intros Hn Hx.
  assert (Hcmp : runtimeLss (hfloat k f) x = false /\ runtimeLss x (hfloat k f) = false
                 /\ runtimeEql (hfloat k f) x = false /\ runtimeEql x (hfloat k f) = false).
  { unfold runtimeLss, runtimeEql, numOf in *. simpl.
    destruct (kindOf x); try (now destruct Hx).
    - destruct (float_nan_compare f (float64_of_int n) Hn) as (H1 & H2 & H3 & H4).
      now rewrite H1, H2, H3, H4.
    - destruct (float_nan_compare f f0 Hn) as (H1 & H2 & H3 & H4).
      now rewrite H1, H2, H3, H4. }
  destruct Hcmp as (H1 & H2 & H3 & H4). unfold runtimeGtr.
  rewrite H1, H2, H3, H4. repeat split; reflexivity.
Qed.

(** ** Integer arithmetic *)

Lemma wrap64_range (z : Z) : - 2 ^ 63 <= wrap64 z < 2 ^ 63.
Proof.
  unfold wrap64.
  pose proof (Z.mod_pos_bound (z + 2 ^ 63) (2 ^ 64)) as Hb. lia.
Qed.

Lemma wrap64_exact (z : Z) : wrap64 z = z <-> - 2 ^ 63 <= z < 2 ^ 63.
Proof.
  split; [|apply wrap64_small].
  intros <-. apply wrap64_range.
Qed.

(** X13: on two operands of signed integer kinds [sub] and [mul] return
    the exact difference (second minus first) and the exact product if and
    only if that number fits in 64 bit two's complement; otherwise the
    result has wrapped around. *)
Theorem int_overflow (k1 k2 : IntKind) (x y : Z) :
  (runtimeSub [hint k1 x; hint k2 y] = Ok (hint Int (y - x))
   <-> - 2 ^ 63 <= y - x < 2 ^ 63)
  /\ (runtimeMul (hint k1 x) (hint k2 y) = hint Int (x * y)
      <-> - 2 ^ 63 <= x * y < 2 ^ 63).
Proof.
  split.
  - rewrite <- wrap64_exact. simpl. split; [intros [= Hw]|intros ->]; congruence.
  - rewrite <- wrap64_exact. unfold runtimeMul. simpl.
    split; [intros [= Hw]|intros ->]; congruence.
Qed.

(** X14: [rem] on two operands of signed integer kinds with a divisor
    that is not zero returns the remainder of the division that truncates
    towards zero: smaller in magnitude than the divisor, with the sign of
    the dividend (or zero), and such that the dividend is the divisor times
    the truncated quotient plus the remainder.  It never wraps. *)
Theorem rem_truncated (k1 k2 : IntKind) (x y : Z) :
  - 2 ^ 63 <= y < 2 ^ 63 -> y <> 0 ->
  runtimeRem (hint k1 x) (hint k2 y) = Ok (hint Int (Z.rem x y))
  /\ Z.abs (Z.rem x y) < Z.abs y
  /\ (0 <= x -> 0 <= Z.rem x y)
  /\ (x <= 0 -> Z.rem x y <= 0)
  /\ x = y * Z.quot x y + Z.rem x y.
Proof.
  intros Hy Hne.
  pose proof (Z.rem_bound_abs x y Hne) as Hb.
  split; [|split; [exact Hb|split; [|split]]].
  - unfold runtimeRem. simpl.
    apply Z.eqb_neq in Hne as Hz. rewrite Hz.
    rewrite wrap64_small by lia. reflexivity.
  - intros Hx. now apply Z.rem_nonneg.
  - intros Hx. now apply Z.rem_nonpos.
  - apply Z.quot_rem'.
Qed.

(** ** Unary operators and increment *)

Lemma wrap64_opp_opp (n : Z) :
  - 2 ^ 63 <= n < 2 ^ 63 -> wrap64 (- wrap64 (- n)) = n.
Proof.
  intros Hn. destruct (Z.eq_dec n (- 2 ^ 63)) as [->|Hne].
  - reflexivity.
  - rewrite (wrap64_small (- n)) by lia. rewrite wrap64_small by lia. lia.
Qed.

(** X15: on an operand of a signed integer kind the unary operators keep
    the number but not the kind: [plus] and the unary [sub] give an int,
    [minus] an int64.  [minus] and the unary [sub] give the same number;
    [minus] applied twice gives the operand back, and the least int64 is
    its own negative. *)
Theorem unary_int (y : host) (n : Z) :
  kindOf y = KInt n -> - 2 ^ 63 <= n < 2 ^ 63 ->
  runtimePlus y = hint Int n
  /\ runtimeMinus y = hint Int64 (wrap64 (- n))
  /\ runtimeSub [y] = Ok (hint Int (wrap64 (- n)))
  /\ runtimeMinus (runtimeMinus y) = hint Int64 n
  /\ (n <> - 2 ^ 63 -> runtimeMinus y = hint Int64 (- n))
  /\ (n = - 2 ^ 63 -> runtimeMinus y = hint Int64 n).
Proof.
  intros Hy Hn. unfold runtimePlus, runtimeMinus, runtimeSub. rewrite Hy. simpl.
  rewrite (wrap64_opp_opp n Hn).
  repeat split; try reflexivity.
  - intros Hne. rewrite wrap64_small by lia. reflexivity.
  - intros ->. reflexivity.
Qed.

(** X16: [inc] of an operand of a signed integer kind is the next int, and
    wraps from the greatest int to the least; of a float it is the
    truncation of the float plus one where an int can hold it; every other
    operand, a string of digits, a bool or an unsigned integer among them,
    gives 0 and not the no-value text. *)
Theorem inc_cases (u : float -> Z) (x : host) :
  (forall n, kindOf x = KInt n -> - 2 ^ 63 <= n < 2 ^ 63 - 1 ->
             runtimeInc u x = n + 1)
  /\ (kindOf x = KInt (2 ^ 63 - 1) -> runtimeInc u x = - 2 ^ 63)
  /\ (forall f z, kindOf x = KFloat f -> truncate (PrimFloat.add f one) = Some z ->
                  runtimeInc u x = z)
  /\ (numOf x = None -> runtimeInc u x = 0).
Proof.
  unfold runtimeInc, numOf. repeat split.
  - intros n Hx Hn. rewrite Hx. apply wrap64_small. lia.
  - intros Hx. rewrite Hx. reflexivity.
  - intros f z Hx Hz. rewrite Hx. simpl. now rewrite Hz.
  - destruct (kindOf x); try discriminate; reflexivity.
Qed.

End MoreProperties.

(** ** extend *)

Section MoreExtendProperties.
Context `{Countable K} {V : Type}.
Variable iter : gmap K V -> list (K * V).
Hypothesis iter_perm : forall o : gmap K V, iter o ≡ₚ map_to_list o.

Lemma merged_overlay_from (h : gmap positive (gmap K V)) (l : positive)
    (on : list (option positive)) (u d : gmap K V) :
  Some l ∉ on ->
  foldl (fun d o => source_map h l d o ∪ d) (u ∪ d) on
  = foldl (fun u o => match o with
                      | None => ∅
                      | Some l' => h !!! l'
                      end ∪ u) u on ∪ d.
Proof.
  revert u. induction on as [|o on IH]; intros u Hl; [reflexivity|].
  apply not_elem_of_cons in Hl as [Ho Hl]. simpl.
  assert (Hs : source_map h l (u ∪ d) o
               = match o with None => ∅ | Some l' => h !!! l' end).
  { destruct o as [l'|]; [|reflexivity]. simpl.
    rewrite decide_False; [reflexivity|congruence]. }
  rewrite Hs, (assoc_L (∪)). now apply IH.
Qed.

Lemma merged_overlay (h : gmap positive (gmap K V)) (l : positive)
    (on : list (option positive)) (d : gmap K V) :
  Some l ∉ on -> merged h l on d = overlay h on ∪ d.
Proof.
  intros Hl. unfold merged, overlay.
  rewrite <- (merged_overlay_from h l on ∅ d Hl).
  now rewrite (left_id_L ∅ (∪)).
Qed.

Lemma extend_overlay_eq (deep : bool) (l : positive) (on : list (option positive))
    (h : gmap positive (gmap K V)) (d : gmap K V) :
  Some l ∉ on -> h !! l = Some d ->
  funcmap.extend iter deep (Some l) on h
  = Ok (Some l, <[l := overlay h on ∪ d]> h).
Proof.
  intros Hl Hd. rewrite (extend_merged iter iter_perm deep l on h d Hd).
  now rewrite merged_overlay.
Qed.

(** X17: when the destination is not among its own sources, [extend]
    leaves in it the sources laid over its old contents, where the
    overlay of the sources does not depend on the destination: a key that
    some source holds gets its value in the overlay, any other key keeps
    the value the destination had. *)
Theorem extend_overlay (deep : bool) (l : positive) (on : list (option positive))
    (h : gmap positive (gmap K V)) (d : gmap K V) :
  Some l ∉ on -> h !! l = Some d ->
  exists h',
    funcmap.extend iter deep (Some l) on h = Ok (Some l, h')
    /\ h' = <[l := overlay h on ∪ d]> h
    /\ forall k, (h' !!! l) !! k
                 = match overlay h on !! k with
                   | Some v => Some v
                   | None => d !! k
                   end.
Proof.
  intros Hl Hd. exists (<[l := overlay h on ∪ d]> h).
  split; [now apply extend_overlay_eq|]. split; [reflexivity|].
  intros k. rewrite lookup_total_insert_eq, lookup_union.
  destruct (overlay h on !! k); destruct (d !! k); reflexivity.
Qed.

(** X18: later sources win.  When a source holds the key [k] with the
    value [v] and no source after it holds [k] (the destination itself may
    come after it), the destination holds [v] at [k] after [extend],
    whatever it and the earlier sources held there. *)
Theorem extend_last_wins (deep : bool) (l l' : positive)
    (pre post : list (option positive)) (h : gmap positive (gmap K V))
    (d : gmap K V) (k : K) (v : V) :
  h !! l = Some d -> l' <> l ->
  (h !!! l') !! k = Some v ->
  (forall l'', Some l'' ∈ post -> l'' = l \/ (h !!! l'') !! k = None) ->
  exists h',
    funcmap.extend iter deep (Some l) (pre ++ Some l' :: post) h = Ok (Some l, h')
    /\ (h' !!! l) !! k = Some v.
Proof.
  intros Hd Hne Hv Hpost.
  exists (<[l := merged h l (pre ++ Some l' :: post) d]> h).
  split; [now apply extend_merged|].
  rewrite lookup_total_insert_eq.
  unfold merged. rewrite foldl_app. simpl.
  apply (merged_keeps h l post k v Hpost).
  rewrite decide_False by exact Hne.
  now apply lookup_union_Some_l.
Qed.

Lemma overlay_frame_from (h : gmap positive (gmap K V)) (l : positive)
    (on : list (option positive)) (x u : gmap K V) :
  Some l ∉ on ->
  foldl (fun u o => match o with
                    | None => ∅
                    | Some l' => <[l := x]> h !!! l'
                    end ∪ u) u on
  = foldl (fun u o => match o with
                      | None => ∅
                      | Some l' => h !!! l'
                      end ∪ u) u on.
Proof.
  revert u. induction on as [|o on IH]; intros u Hl; [reflexivity|].
  apply not_elem_of_cons in Hl as [Ho Hl]. simpl.
  assert (Hs : match o with None => ∅ | Some l' => <[l := x]> h !!! l' end
               = match o with None => (∅ : gmap K V) | Some l' => h !!! l' end).
  { destruct o as [l'|]; [|reflexivity].
    apply lookup_total_insert_ne. congruence. }
  rewrite Hs. now apply IH.
Qed.

Lemma overlay_frame (h : gmap positive (gmap K V)) (l : positive)
    (on : list (option positive)) (x : gmap K V) :
  Some l ∉ on -> overlay (<[l := x]> h) on = overlay h on.
Proof.
  intros Hl. unfold overlay. now apply overlay_frame_from.
Qed.

(** X19: [extend] is idempotent on maps whose keys are found again by
    [==], the maps of this model (no NaN key).  When the destination is
    not among its own sources, calling [extend] a second time with the
    same sources changes nothing any more. *)
Theorem extend_idempotent (deep : bool) (l : positive)
    (on : list (option positive)) (h : gmap positive (gmap K V))
    (d : gmap K V) :
  Some l ∉ on -> h !! l = Some d ->
  exists h',
    funcmap.extend iter deep (Some l) on h = Ok (Some l, h')
    /\ funcmap.extend iter deep (Some l) on h' = Ok (Some l, h').
Proof.
  intros Hl Hd. exists (<[l := overlay h on ∪ d]> h).
  split; [now apply extend_overlay_eq|].
  rewrite (extend_overlay_eq deep l on _ (overlay h on ∪ d) Hl)
    by apply lookup_insert_eq.
  rewrite (overlay_frame h l on _ Hl), insert_insert_eq.
  rewrite (assoc_L (∪)), (idemp_L (∪)). reflexivity.
Qed.

(** X20: when no source has an entry ([extend] without sources, or with
    sources that are nil or empty), [extend] assigns nothing: it returns
    its destination and leaves the heap as it is, also for a destination
    that is nil. *)
Theorem extend_nothing (deep : bool) (m : option positive)
    (on : list (option positive)) (h : gmap positive (gmap K V)) :
  (forall o, o ∈ on -> funcmap.maprange iter o h = []) ->
  funcmap.extend iter deep m on h = Ok (m, h).
Proof.
  intros Hon. unfold funcmap.extend.
  assert (Hloop : foldM (fun h1 o =>
                           foldM (fun h2 kv => funcmap.mapassign m (fst kv) (snd kv) h2)
                                 h1 (funcmap.maprange iter o h1)) h on = Ok h).
  { induction on as [|o on IH]; [reflexivity|].
    rewrite foldM_cons, (Hon o) by now left. simpl.
    apply IH. intros o' Hin. apply Hon. now right. }
  now rewrite Hloop.
Qed.

(** X21: with a nil destination [extend] panics as soon as any source has
    an entry: the assignment to an entry of a nil map is the one thing
    [extend] does with its destination. *)
Theorem extend_nil_panics (deep : bool) (on : list (option positive))
    (h : gmap positive (gmap K V)) :
  (exists o, o ∈ on /\ funcmap.maprange iter o h <> []) ->
  funcmap.extend iter deep None on h = Panic NilMapAssign.
Proof.
  intros Hex. unfold funcmap.extend.
  assert (Hloop : foldM (fun h1 o =>
                           foldM (fun h2 kv => funcmap.mapassign None (fst kv) (snd kv) h2)
                                 h1 (funcmap.maprange iter o h1)) h on
                  = Panic NilMapAssign).
  { induction on as [|o on IH].
    - destruct Hex as (o & Hin & _). now apply elem_of_nil in Hin.
    - rewrite foldM_cons.
      destruct (funcmap.maprange iter o h) as [|kv rest] eqn:E.
      + simpl. apply IH. destruct Hex as (o' & Hin & Hne).
        apply elem_of_cons in Hin as [->|Hin]; [congruence|].
        now exists o'.
      + reflexivity. }
  now rewrite Hloop.
Qed.

End MoreExtendProperties.

(** * The further properties on concrete inputs *)

Lemma tryindex_array_witness :
  0 <= 1
  /\ [Number 10; Number 20; Number 30] !! Z.to_nat 1 = Some (Number 20)
  /\ funcmap.tryindex (hobj (Array [Number 10; Number 20; Number 30])) (hint Int 1)
     = Ok (hobj (Number 20))
  /\ Int64 <> Int
  /\ funcmap.tryindex (hobj (Array [Number 10; Number 20; Number 30])) (hint Int64 1)
     = Ok (hobj (Field (Array [Number 10; Number 20; Number 30])
                       (String_of (convert (hint Int64 1))))).
Proof.
  assert (H0 : 0 <= 1) by lia.
  assert (H1 : [Number 10; Number 20; Number 30] !! Z.to_nat 1 = Some (Number 20))
    by reflexivity.
  assert (H2 : Int64 <> Int) by discriminate.
  split; [exact H0|]. split; [exact H1|].
  split.
  { exact (proj1 (tryindex_array [Number 10; Number 20; Number 30] Int 1)
             (Number 20) H0 H1). }
  split; [exact H2|].
  exact (proj2 (tryindex_array [Number 10; Number 20; Number 30] Int64 1) H2).
Defined.

Lemma tryindex_slice_witness :
  indirect (hslice [hstring "a"; hstring "b"]) = (hslice [hstring "a"; hstring "b"], false)
  /\ 0 <= 1
  /\ [hstring "a"; hstring "b"] !! Z.to_nat 1 = Some (hstring "b")
  /\ funcmap.tryindex (hslice [hstring "a"; hstring "b"]) (hint Int64 1) = Ok (hstring "b")
  /\ Z.of_nat (length [hstring "a"; hstring "b"]) <= 2
  /\ funcmap.tryindex (hslice [hstring "a"; hstring "b"]) (hint Int64 2) = Ok hnil
  /\ -1 < 0
  /\ funcmap.tryindex (hslice [hstring "a"; hstring "b"]) (hint Int64 (-1))
     = Panic IndexOutOfRange.
Proof.
  assert (Hind : indirect (hslice [hstring "a"; hstring "b"])
                 = (hslice [hstring "a"; hstring "b"], false)) by reflexivity.
  assert (H0 : 0 <= 1) by lia.
  assert (H1 : [hstring "a"; hstring "b"] !! Z.to_nat 1 = Some (hstring "b"))
    by reflexivity.
  assert (H2 : Z.of_nat (length [hstring "a"; hstring "b"]) <= 2) by (simpl; lia).
  assert (H3 : -1 < 0) by lia.
  split; [exact Hind|]. split; [exact H0|]. split; [exact H1|].
  split; [exact (proj1 (tryindex_slice _ Int64 1 Hind) _ H0 H1)|].
  split; [exact H2|].
  split; [exact (proj1 (proj2 (tryindex_slice _ Int64 2 Hind)) H2)|].
  split; [exact H3|].
  exact (proj2 (proj2 (tryindex_slice _ Int64 (-1) Hind)) H3).
Defined.

Lemma tryindex_key_not_int_witness :
  (forall o, hmap [(hstring "a", hint Int 1)] <> hobj o)
  /\ (forall n, kindOf (hstring "a") <> KInt n)
  /\ funcmap.tryindex (hmap [(hstring "a", hint Int 1)]) (hstring "a")
     = Panic ReflectKind.
Proof.
  assert (Ho : forall o, hmap [(hstring "a", hint Int 1)] <> hobj o) by discriminate.
  assert (Hk : forall n, kindOf (hstring "a") <> KInt n) by discriminate.
  split; [exact Ho|]. split; [exact Hk|].
  exact (tryindex_key_not_int _ _ Ho Hk).
Defined.

Lemma Range_contents_witness :
  exists l,
    funcmap._Range [2; 5] = Ok (convert (hslice l))
    /\ length l = 3%nat
    /\ l !! 1%nat = Some (hint Int 3).
Proof.
  destruct (proj1 (Range_contents 2 5 [])) as (l & Hr & Hlen & Hl).
  exists l. split; [exact Hr|]. split; [exact Hlen|].
  apply (Hl 1%nat). rewrite Hlen. simpl. lia.
Defined.

Lemma attr_pieces_witness :
  no_space "data"
  /\ funcmap.attr (hstring "a b") (hstring "x y") = Ok "x y-a x y-b"
  /\ exists r,
       funcmap.attr (hstring "a  b") (hstring "data") = Ok r
       /\ r = "data-a data- data-b"
       /\ Split r space = (fun v => "data" +:+ "-" +:+ v) <$> Split "a  b" space
       /\ length (Split r space) = length (Split "a  b" space).
Proof.
  assert (Hp : no_space "data").
  { unfold no_space. simpl. intros Hin.
    repeat (destruct Hin as [Hin|Hin]; [discriminate Hin|]). exact Hin. }
  split; [exact Hp|].
  split.
  { destruct (attr_pieces "a b" "x y") as (r & Hr & -> & _). exact Hr. }
  destruct (attr_pieces "a  b" "data") as (r & Hr & Hj & Hs).
  exists r. split; [exact Hr|]. split; [exact Hj|]. exact (Hs Hp).
Defined.

Example attr_double_space :
  funcmap.attr (hstring "a  b") (hstring "data") = Ok "data-a data- data-b".
Proof. reflexivity. Qed.

Lemma add_andattributes_known_set_witness :
  (forall x : string, x ∈ ["class"; "id"; "class"] <-> x ∈ ["id"; "class"])
  /\ (funcmap.__add_andattributes attrs_ab ["class"; "id"; "class"]
        (quoted "a" "1" +:+ " " +:+ quoted "b" "2")
      <-> funcmap.__add_andattributes attrs_ab ["id"; "class"]
            (quoted "a" "1" +:+ " " +:+ quoted "b" "2")).
Proof.
  assert (Hk : forall x : string, x ∈ ["class"; "id"; "class"] <-> x ∈ ["id"; "class"]).
  { intros x. rewrite !elem_of_cons. tauto. }
  split; [exact Hk|].
  exact (add_andattributes_known_set attrs_ab _ _ _ Hk).
Defined.

Lemma add_andattributes_all_known_witness :
  (forall kv, kv ∈ [(String' "id", String' " x "); (String' "class", String' "c")] ->
              String_of (fst kv) ∈ ["id"; "class"])
  /\ (funcmap.__add_andattributes attrs_id_class ["id"; "class"] EmptyString
      <-> EmptyString = TrimSpace EmptyString).
Proof.
  assert (Hall : forall kv,
             kv ∈ [(String' "id", String' " x "); (String' "class", String' "c")] ->
             String_of (fst kv) ∈ ["id"; "class"]).
  { intros kv Hin. rewrite !elem_of_cons in Hin.
    destruct Hin as [->|[->|Hin]].
    - left.
    - right. left.
    - now apply elem_of_nil in Hin. }
  split; [exact Hall|].
  exact (add_andattributes_all_known _ ["id"; "class"] EmptyString Hall).
Defined.

Lemma eql_symmetric_witness :
  (forall b n, ~ (kindOf (hint Int 5) = KBool b /\ kindOf (hstring "5") = KInt n))
  /\ (forall b n, ~ (kindOf (hstring "5") = KBool b /\ kindOf (hint Int 5) = KInt n))
  /\ runtimeEql (hint Int 5) (hstring "5") = runtimeEql (hstring "5") (hint Int 5).
Proof.
  assert (H1 : forall b n,
             ~ (kindOf (hint Int 5) = KBool b /\ kindOf (hstring "5") = KInt n))
    by (intros b n [Hb _]; discriminate Hb).
  assert (H2 : forall b n,
             ~ (kindOf (hstring "5") = KBool b /\ kindOf (hint Int 5) = KInt n))
    by (intros b n [Hb _]; discriminate Hb).
  split; [exact H1|]. split; [exact H2|].
  exact (eql_symmetric (hint Int 5) (hstring "5") H1 H2).
Defined.

Lemma gtr_converse_witness :
  int_or_string (hint Int 5) = true
  /\ int_or_string (hstring "10") = true
  /\ runtimeGtr (hint Int 5) (hstring "10") = runtimeLss (hstring "10") (hint Int 5).
Proof.
  split; [reflexivity|]. split; [reflexivity|].
  exact (gtr_converse (hint Int 5) (hstring "10") eq_refl eq_refl).
Defined.

(** The int 5 is greater than the text 10: a signed integer and a string
    are compared as texts. *)
Example gtr_5_text_10 : runtimeGtr (hint Int 5) (hstring "10") = true.
Proof. reflexivity. Qed.

Lemma gtr_nan_witness :
  PrimFloat.is_nan nan = true
  /\ numOf (hint Int 1) <> None
  /\ runtimeGtr (hfloat Float64 nan) (hint Int 1) = true
  /\ runtimeGtr (hint Int 1) (hfloat Float64 nan) = true.
Proof.
  assert (Hn : PrimFloat.is_nan nan = true) by reflexivity.
  assert (Hx : numOf (hint Int 1) <> None) by discriminate.
  split; [exact Hn|]. split; [exact Hx|].
  destruct (gtr_nan Float64 nan (hint Int 1) Hn Hx) as (_ & _ & _ & _ & Hg1 & Hg2).
  split; [exact Hg1|exact Hg2].
Defined.

Lemma int_overflow_witness :
  - 2 ^ 63 <= 3 - 5 < 2 ^ 63
  /\ runtimeSub [hint Int 5; hint Int 3] = Ok (hint Int (3 - 5))
  /\ ~ (- 2 ^ 63 <= 2 ^ 62 * 4 < 2 ^ 63)
  /\ runtimeMul (hint Int (2 ^ 62)) (hint Int 4) <> hint Int (2 ^ 62 * 4).
Proof.
  assert (H1 : - 2 ^ 63 <= 3 - 5 < 2 ^ 63) by lia.
  assert (H2 : ~ (- 2 ^ 63 <= 2 ^ 62 * 4 < 2 ^ 63)) by lia.
  split; [exact H1|].
  split; [exact (proj2 (proj1 (int_overflow Int Int 5 3)) H1)|].
  split; [exact H2|].
  intros Heq. exact (H2 (proj1 (proj2 (int_overflow Int Int (2 ^ 62) 4)) Heq)).
Defined.

Lemma rem_truncated_witness :
  - 2 ^ 63 <= 2 < 2 ^ 63
  /\ 2 <> 0
  /\ runtimeRem (hint Int (-7)) (hint Int 2) = Ok (hint Int (Z.rem (-7) 2))
  /\ Z.rem (-7) 2 = -1.
Proof.
  assert (H1 : - 2 ^ 63 <= 2 < 2 ^ 63) by lia.
  assert (H2 : 2 <> 0) by lia.
  split; [exact H1|]. split; [exact H2|].
  split; [exact (proj1 (rem_truncated Int Int (-7) 2 H1 H2))|reflexivity].
Defined.

Lemma unary_int_witness :
  kindOf (hint Int8 5) = KInt 5
  /\ - 2 ^ 63 <= 5 < 2 ^ 63
  /\ runtimePlus (hint Int8 5) = hint Int 5
  /\ runtimeMinus (hint Int8 5) = hint Int64 (wrap64 (- 5))
  /\ runtimeSub [hint Int8 5] = Ok (hint Int (wrap64 (- 5)))
  /\ runtimeMinus (runtimeMinus (hint Int8 5)) = hint Int64 5.
Proof.
  assert (H1 : - 2 ^ 63 <= 5 < 2 ^ 63) by lia.
  destruct (unary_int (hint Int8 5) 5 eq_refl H1) as (Hp & Hm & Hs & Hmm & _).
  split; [reflexivity|]. split; [exact H1|].
  split; [exact Hp|]. split; [exact Hm|]. split; [exact Hs|exact Hmm].
Defined.

Lemma inc_cases_witness :
  kindOf (hint Int 41) = KInt 41
  /\ - 2 ^ 63 <= 41 < 2 ^ 63 - 1
  /\ runtimeInc (fun _ => MinInt64) (hint Int 41) = 41 + 1
  /\ kindOf (hfloat Float64 1.5) = KFloat 1.5
  /\ truncate (PrimFloat.add 1.5 one) = Some 2
  /\ runtimeInc (fun _ => MinInt64) (hfloat Float64 1.5) = 2
  /\ numOf (hstring "41") = None
  /\ runtimeInc (fun _ => MinInt64) (hstring "41") = 0.
Proof.
  assert (H1 : - 2 ^ 63 <= 41 < 2 ^ 63 - 1) by lia.
  assert (H2 : truncate (PrimFloat.add 1.5 one) = Some 2) by reflexivity.
  split; [reflexivity|]. split; [exact H1|].
  split; [exact (proj1 (inc_cases (fun _ => MinInt64) (hint Int 41)) 41 eq_refl H1)|].
  split; [reflexivity|]. split; [exact H2|].
  split.
  { exact (proj1 (proj2 (proj2 (inc_cases (fun _ => MinInt64) (hfloat Float64 1.5))))
             1.5%float 2 eq_refl H2). }
  split; [reflexivity|].
  exact (proj2 (proj2 (proj2 (inc_cases (fun _ => MinInt64) (hstring "41")))) eq_refl).
Defined.

Example inc_examples :
  runtimeInc (fun _ => MinInt64) (hint Int (2 ^ 63 - 1)) = MinInt64
  /\ runtimeInc (fun _ => MinInt64) (hfloat Float64 (-1.5)) = 0
  /\ runtimeInc (fun _ => MinInt64) (hfloat Float64 (-2.5)) = -1
  /\ runtimeInc (fun _ => MinInt64) (huint Uint 7) = 0.
Proof. repeat split; vm_compute; reflexivity. Qed.

Example sc_example :
  sc [hint Int 12; hstring "px "; hbool true; hfloat Float64 1.5; hnil]
  = "12px 1.500000".
Proof. vm_compute. reflexivity. Qed.

Lemma extend_overlay_witness :
  (forall o : gmap string Z, map_to_list o ≡ₚ map_to_list o)
  /\ (Some 1%positive ∉ [Some 2%positive; None])
  /\ heap_ab !! 1%positive = Some {[ "a" := 1 ]}
  /\ exists h',
       funcmap.extend map_to_list false (Some 1%positive) [Some 2%positive; None] heap_ab
       = Ok (Some 1%positive, h')
       /\ h' = <[1%positive := overlay heap_ab [Some 2%positive; None] ∪ {[ "a" := 1 ]}]>
                 heap_ab
       /\ forall k, (h' !!! 1%positive) !! k
                    = match overlay heap_ab [Some 2%positive; None] !! k with
                      | Some v => Some v
                      | None => ({[ "a" := 1 ]} : gmap string Z) !! k
                      end.
Proof.
  assert (Hperm : forall o : gmap string Z, map_to_list o ≡ₚ map_to_list o)
    by reflexivity.
  assert (Hl : Some 1%positive ∉ [Some 2%positive; None]).
  { rewrite !not_elem_of_cons. repeat split; try discriminate. apply not_elem_of_nil. }
  assert (Hd : heap_ab !! 1%positive = Some {[ "a" := 1 ]}) by reflexivity.
  split; [exact Hperm|]. split; [exact Hl|]. split; [exact Hd|].
  exact (extend_overlay map_to_list Hperm false 1%positive _ heap_ab _ Hl Hd).
Defined.

Lemma extend_last_wins_witness :
  (forall o : gmap string Z, map_to_list o ≡ₚ map_to_list o)
  /\ heap_abc !! 3%positive = Some ∅
  /\ 2%positive <> 3%positive
  /\ (heap_abc !!! 2%positive) !! "a" = Some 2
  /\ (forall l'', Some l'' ∈ [Some 3%positive; None] ->
                  l'' = 3%positive \/ (heap_abc !!! l'') !! "a" = None)
  /\ exists h',
       funcmap.extend map_to_list false (Some 3%positive)
         ([Some 1%positive] ++ Some 2%positive :: [Some 3%positive; None]) heap_abc
       = Ok (Some 3%positive, h')
       /\ (h' !!! 3%positive) !! "a" = Some 2.
Proof.
  assert (Hperm : forall o : gmap string Z, map_to_list o ≡ₚ map_to_list o)
    by reflexivity.
  assert (Hd : heap_abc !! 3%positive = Some ∅) by reflexivity.
  assert (Hne : 2%positive <> 3%positive) by discriminate.
  assert (Hv : (heap_abc !!! 2%positive) !! "a" = Some 2) by reflexivity.
  assert (Hpost : forall l'', Some l'' ∈ [Some 3%positive; None] ->
                              l'' = 3%positive \/ (heap_abc !!! l'') !! "a" = None).
  { intros l'' Hin. rewrite !elem_of_cons in Hin.
    destruct Hin as [[= ->]|[Hin|Hin]]; [now left|discriminate Hin|].
    now apply elem_of_nil in Hin. }
  split; [exact Hperm|]. split; [exact Hd|]. split; [exact Hne|].
  split; [exact Hv|]. split; [exact Hpost|].
  exact (extend_last_wins map_to_list Hperm false 3%positive 2%positive
           [Some 1%positive] [Some 3%positive; None] heap_abc ∅ "a" 2
           Hd Hne Hv Hpost).
Defined.

Lemma extend_idempotent_witness :
  (forall o : gmap string Z, map_to_list o ≡ₚ map_to_list o)
  /\ (Some 1%positive ∉ [Some 2%positive])
  /\ heap_ab !! 1%positive = Some {[ "a" := 1 ]}
  /\ exists h',
       funcmap.extend map_to_list true (Some 1%positive) [Some 2%positive] heap_ab
       = Ok (Some 1%positive, h')
       /\ funcmap.extend map_to_list true (Some 1%positive) [Some 2%positive] h'
          = Ok (Some 1%positive, h').
Proof.
  assert (Hperm : forall o : gmap string Z, map_to_list o ≡ₚ map_to_list o)
    by reflexivity.
  assert (Hl : Some 1%positive ∉ [Some 2%positive]).
  { rewrite !not_elem_of_cons. split; [discriminate|apply not_elem_of_nil]. }
  assert (Hd : heap_ab !! 1%positive = Some {[ "a" := 1 ]}) by reflexivity.
  split; [exact Hperm|]. split; [exact Hl|]. split; [exact Hd|].
  exact (extend_idempotent map_to_list Hperm true 1%positive _ heap_ab _ Hl Hd).
Defined.

Lemma extend_nothing_witness :
  (forall o, o ∈ [None; Some 3%positive] ->
             funcmap.maprange map_to_list o heap_abc = [])
  /\ funcmap.extend map_to_list false None [None; Some 3%positive] heap_abc
     = Ok (None, heap_abc).
Proof.
  assert (Hon : forall o, o ∈ [None; Some 3%positive] ->
                          funcmap.maprange map_to_list o heap_abc = []).
  { intros o Hin. rewrite !elem_of_cons in Hin.
    destruct Hin as [->|[->|Hin]]; [reflexivity|reflexivity|].
    now apply elem_of_nil in Hin. }
  split; [exact Hon|].
  exact (extend_nothing map_to_list false None _ heap_abc Hon).
Defined.

Lemma extend_nil_panics_witness :
  (exists o, o ∈ [None; Some 2%positive]
             /\ funcmap.maprange map_to_list o heap_ab <> [])
  /\ funcmap.extend map_to_list false None [None; Some 2%positive] heap_ab
     = Panic NilMapAssign.
Proof.
  assert (Hex : exists o, o ∈ [None; Some 2%positive]
                          /\ funcmap.maprange map_to_list o heap_ab <> []).
  { exists (Some 2%positive). split; [right; left|].
    vm_compute. discriminate. }
  split; [exact Hex|].
  exact (extend_nil_panics map_to_list false _ heap_ab Hex).
Defined.
